(** * movie_bot.py: catalog ingestion, canonical keys and lookups

    A shallow embedding of [src/movie_bot.py].  Python [str] values are
    lists of Unicode code points; the character classes that the [re]
    module and [str.strip] consult ([\w], [\s], [\d]) are the Unicode
    tables of the interpreter and are kept as parameters of the
    development.  Effects (the cursor file, the SQLite table, the HTTP
    and channel collaborators, logging, sleeping) are threaded through an
    explicit world with a small state-and-exception monad. *)

From Stdlib Require Import List NArith ZArith Bool Lia String Ascii QArith Lqa.
From Stdlib Require DecimalString DecimalPos.
Import ListNotations.

Set Implicit Arguments.
Set Warnings "-notation-for-abbreviation".


(* ================================================================== *)
(** ** Python strings *)

Module PyStr.

(** A character is its code point; a [str] is the sequence of them. *)
Definition char := N.
Definition str := list char.

Definition char_eqb (a b : char) : bool := N.eqb a b.

Fixpoint eqb (a b : str) : bool :=
  match a, b with
  | [], [] => true
  | x :: a', y :: b' => char_eqb x y && eqb a' b'
  | _, _ => false
  end.

(** String literals of the source, written as Rocq strings. *)
Definition py (s : string) : str :=
  map N_of_ascii (list_ascii_of_string s).

Definition space : char := 32%N.
Definition underscore : char := 95%N.
Definition newline : char := 10%N.

(** [bool(s)]: a string is truthy when it is not empty. *)
Definition truthy (s : str) : bool :=
  match s with [] => false | _ :: _ => true end.

(** [str(n)] for an [int]. *)
Definition str_of_int (n : Z) : str :=
  py (DecimalString.NilZero.string_of_int (Z.to_int n)).

Section Tables.
(** [str.isspace] / [\s]: Unicode whitespace. *)
Variable is_space : char -> bool.

(** [s.lstrip()], [s.rstrip()] and [s.strip()] with no argument. *)
Fixpoint lstrip (s : str) : str :=
  match s with
  | [] => []
  | c :: tl => if is_space c then lstrip tl else s
  end.

Definition rstrip (s : str) : str := rev (lstrip (rev s)).

Definition strip (s : str) : str := rstrip (lstrip s).
End Tables.

(** The tables restricted to the Basic Latin block (code points below
    128), where they are: decimal digits [0-9]; alphanumerics
    [0-9A-Za-z]; whitespace TAB, LF, VT, FF, CR, FS, GS, RS, US and
    SPACE.  They serve to evaluate the program on ASCII captions. *)
Module Latin.
Definition between (lo hi c : N) : bool := (lo <=? c)%N && (c <=? hi)%N.
Definition is_decimal (c : char) : bool := between 48 57 c.
Definition is_alnum (c : char) : bool :=
  between 48 57 c || between 65 90 c || between 97 122 c.
Definition is_space (c : char) : bool :=
  between 9 13 c || between 28 32 c.
End Latin.

End PyStr.

Import PyStr.

(* ================================================================== *)
(** ** The canonicalizer: [normalize_movie_name] *)

Module Canonicalizer.

Section Tables.
(** [str.isalnum] on one character, [\s], and [\d] (decimal digits). *)
Variable is_alnum : char -> bool.
Variable is_space : char -> bool.
Variable is_decimal : char -> bool.

(** [\w]: alphanumeric or the underscore. *)
Definition is_word (c : char) : bool := is_alnum c || char_eqb c underscore.

(** [re.sub(r'[^\w\s]', ' ', caption)] *)
Definition sub_special (caption : str) : str :=
  map (fun c => if is_word c || is_space c then c else space) caption.

(** [re.sub(r'\s+', ' ', name)]: every maximal run of whitespace
    becomes one space (emitted when the run ends). *)
Fixpoint sub_spaces (name : str) : str :=
  match name with
  | [] => []
  | c :: tl =>
      if is_space c then
        match tl with
        | c' :: _ => if is_space c' then sub_spaces tl else space :: sub_spaces tl
        | [] => [space]
        end
      else c :: sub_spaces tl
  end.

(** Whether [\d{4}] matches at the start of [s]. *)
Definition year_at (s : str) : option str :=
  match s with
  | a :: b :: c :: d :: _ =>
      if is_decimal a && is_decimal b && is_decimal c && is_decimal d
      then Some [a; b; c; d] else None
  | _ => None
  end.

(** [re.search(r'(\d{4})', name)], giving [match.group(1)]. *)
Fixpoint search_year (name : str) : option str :=
  match name with
  | [] => None
  | _ :: tl =>
      match year_at name with
      | Some y => Some y
      | None => search_year tl
      end
  end.

(** [re.sub(r'(\d{4})', '', name)]: every match found scanning from
    the left is deleted, the scan resuming after the match. *)
Fixpoint sub_years (name : str) : str :=
  match name with
  | [] => []
  | a :: tl =>
      match tl with
      | _ :: _ :: _ :: rest =>
          match year_at name with
          | Some _ => sub_years rest
          | None => a :: sub_years tl
          end
      | _ => a :: sub_years tl
      end
  end.

Definition normalize_movie_name (caption : str) : str :=
  let name := sub_special caption in
  let name := strip is_space (sub_spaces name) in
  match search_year name with
  | Some year =>
      let name := strip is_space (sub_years name) in
      name ++ py " (" ++ year ++ py ")"
  | None => name
  end.

(** The text the year search runs on. *)
Definition cleaned (caption : str) : str :=
  strip is_space (sub_spaces (sub_special caption)).

End Tables.

(** The canonicalizer on ASCII captions. *)
Definition normalize_latin : str -> str :=
  normalize_movie_name Latin.is_alnum Latin.is_space Latin.is_decimal.

End Canonicalizer.

Import Canonicalizer.

(* ================================================================== *)
(** ** The world the bot runs in, and a monad over it *)

Module Effects.

(** The exceptions the program meets, by the class its handlers test. *)
Inductive exn : Type :=
| ValueError
| AttributeError
| SqliteError                      (* sqlite3.Error *)
| RequestException                 (* requests.exceptions.RequestException *)
| RetryAfter (retry_after : Z)     (* telegram.error.RetryAfter *)
| Conflict                         (* telegram.error.Conflict *)
| Unauthorized                     (* telegram.error.Unauthorized *)
| BadRequest                       (* telegram.error.BadRequest *)
| OtherTelegramError               (* any other telegram.error.TelegramError *)
| OtherException.

Inductive result (A : Type) : Type :=
| Ok (a : A)
| Raise (e : exn).
Arguments Raise {A} e.

(** A row of table [movies]. *)
Record row : Type := mkRow {
  row_id : Z;                      (* id INTEGER PRIMARY KEY *)
  normalized_name : str;           (* normalized_name TEXT UNIQUE *)
  details : str;
  file_id : str
}.

(** The tuples handed to [insert_movies] and returned by [get_all_movies]. *)
Definition movie : Type := (str * str * str)%type.
Definition movie_name (m : movie) : str := fst (fst m).
Definition movie_details (m : movie) : str := snd (fst m).
Definition movie_file (m : movie) : str := snd m.

Inductive level : Type := INFO | WARNING | ERROR.

(** One constructor per logging call of the source. *)
Inductive log_site : Type :=
| CursorUnreadable                 (* "Error reading LAST_UPDATE_ID_FILE. Resetting to None." *)
| DbBatchError                     (* "Database error during batch insert: ..." *)
| OmdbApiError                     (* "OMDb API error: ..." *)
| OmdbFetchError                   (* "Error fetching data from OMDb API: ..." *)
| FetchingUpdates                  (* "Fetching updates from channel: ..." *)
| RateLimitExceeded                (* "Rate limit exceeded. Retrying after ..." *)
| AnotherInstance                  (* "Another bot instance is running. Exiting." *)
| InvalidChat                      (* "Invalid or inaccessible chat_id: ..." *)
| FetchUpdatesError.               (* "Error while fetching updates: ..." *)

(** What the program does to the outside, in the order it does it. *)
Inductive event : Type :=
| Log (lv : level) (site : log_site)
| Sleep (seconds : Z)
| HttpGet (url : str)
| GetUpdates (offset : option Z)
| CursorWrite (content : str)
| ExecuteMany (batch : list movie).

Record world : Type := mkWorld {
  cursor_file : option str;        (* last_update_id.txt: its content, if it exists *)
  movies : list row;               (* table movies, as committed *)
  txn : option (list row);         (* the table as seen inside an open transaction *)
  trace : list event
}.

Definition M (A : Type) : Type := world -> result A * world.

Definition ret {A} (a : A) : M A := fun w => (Ok a, w).

Definition bind {A B} (m : M A) (k : A -> M B) : M B :=
  fun w => match m w with
           | (Ok a, w') => k a w'
           | (Raise e, w') => (Raise e, w')
           end.

Definition raise {A} (e : exn) : M A := fun w => (Raise e, w).

(** [try: m  except ...: h]; [h e = None] when no clause matches [e]. *)
Definition try_except {A} (m : M A) (h : exn -> option (M A)) : M A :=
  fun w => match m w with
           | (Ok a, w') => (Ok a, w')
           | (Raise e, w') =>
               match h e with
               | Some k => k w'
               | None => (Raise e, w')
               end
           end.

Definition emit (e : event) : M unit :=
  fun w => (Ok tt, mkWorld (cursor_file w) (movies w) (txn w) (trace w ++ [e])).

Definition logging (lv : level) (site : log_site) : M unit := emit (Log lv site).

Definition get_world : M world := fun w => (Ok w, w).

Definition set_cursor_file (content : str) : M unit :=
  fun w => (Ok tt, mkWorld (Some content) (movies w) (txn w) (trace w)).

Definition set_txn (t : option (list row)) : M unit :=
  fun w => (Ok tt, mkWorld (cursor_file w) (movies w) t (trace w)).

Definition set_movies (t : list row) : M unit :=
  fun w => (Ok tt, mkWorld (cursor_file w) t (txn w) (trace w)).

Declare Scope py_scope.
Delimit Scope py_scope with py.
Notation "x <- m ;; k" := (bind m (fun x => k))
  (at level 61, m at next level, right associativity) : py_scope.
Notation "m ;; k" := (bind m (fun _ => k))
  (at level 61, right associativity) : py_scope.

End Effects.

Import Effects.
Local Open Scope py_scope.

(* ================================================================== *)
(** ** The cursor store: [get_last_update_id], [save_last_update_id] *)

Module Cursor.

Section Builtins.
Variable is_space : char -> bool.
(** The built-in [int] on a string: [None] where it raises [ValueError]. *)
Variable int : str -> option Z.

Definition get_last_update_id : M (option Z) :=
  w <- get_world ;;
  match cursor_file w with
  | Some content =>
      try_except
        (match int (strip is_space content) with
         | Some n => ret (Some n)
         | None => raise ValueError
         end)
        (fun e => match e with
                  | ValueError =>
                      Some (logging ERROR CursorUnreadable ;; ret None)
                  | _ => None
                  end)
  | None => ret None
  end.

Definition save_last_update_id (update_id : Z) : M unit :=
  emit (CursorWrite (str_of_int update_id)) ;;
  set_cursor_file (str_of_int update_id).
End Builtins.

(** [int] on ASCII text: an optional sign, then decimal digits with
    single underscores allowed between digits. *)
Fixpoint latin_digits (acc : Z) (after_digit : bool) (s : str) : option Z :=
  match s with
  | [] => if after_digit then Some acc else None
  | c :: tl =>
      if Latin.is_decimal c
      then latin_digits (10 * acc + Z.of_N (c - 48)) true tl
      else if char_eqb c underscore && after_digit
           then match tl with
                | [] => None
                | _ :: _ => latin_digits acc false tl
                end
           else None
  end.

Definition latin_int (s : str) : option Z :=
  match strip Latin.is_space s with
  | 43%N :: tl => latin_digits 0 false tl
  | 45%N :: tl => option_map Z.opp (latin_digits 0 false tl)
  | s' => latin_digits 0 false s'
  end.

End Cursor.

Import Cursor.

(* ================================================================== *)
(** ** The catalog store: [DatabaseManager] *)

Module DatabaseManager.

(** Where the storage layer raises [sqlite3.Error] during one call. *)
Inductive storage_fault : Type :=
| NoFault
| ConnectFails
| StatementFails (k : nat)         (* at statement [k] of the call: the [k]-th
                                      tuple of [executemany]; for [k = 0],
                                      the SELECT of [get_all_movies] *)
| CommitFails.

Definition has_name (name : str) (tbl : list row) : bool :=
  existsb (fun r => PyStr.eqb (normalized_name r) name) tbl.

(** The rowid SQLite gives a fresh row: one more than the largest in use. *)
Definition next_id (tbl : list row) : Z :=
  fold_right (fun r acc => Z.max (row_id r) acc) 0%Z tbl + 1.

(** [INSERT OR IGNORE INTO movies (normalized_name, details, file_id)]:
    a row that would break [UNIQUE] on [normalized_name] is not inserted. *)
Definition insert_or_ignore (tbl : list row) (m : movie) : list row :=
  if has_name (movie_name m) tbl then tbl
  else tbl ++ [mkRow (next_id tbl) (movie_name m) (movie_details m) (movie_file m)].

(** The statements of one [executemany], the storage raising at tuple
    number [failing] if it is reached. *)
Fixpoint insert_each (failing : option nat) (tbl : list row) (ms : list movie)
  : result unit * list row :=
  match ms with
  | [] => (Ok tt, tbl)
  | m :: ms' =>
      match failing with
      | Some O => (Raise SqliteError, tbl)
      | Some (S k) => insert_each (Some k) (insert_or_ignore tbl m) ms'
      | None => insert_each None (insert_or_ignore tbl m) ms'
      end
  end.

Section Storage.
Variable fault : storage_fault.

(** [sqlite3.connect(self.db_file)]: a fresh connection, in the default
    isolation level, with no transaction open. *)
Definition connect : M unit :=
  match fault with
  | ConnectFails => raise SqliteError
  | _ => set_txn None
  end.

(** [c.executemany("INSERT OR IGNORE ...", movies)]: a transaction is
    opened implicitly before the first statement. *)
Definition executemany (ms : list movie) : M unit :=
  emit (ExecuteMany ms) ;;
  match ms with
  | [] => ret tt
  | _ :: _ =>
      w <- get_world ;;
      let tbl := match txn w with Some t => t | None => movies w end in
      let failing := match fault with StatementFails k => Some k | _ => None end in
      let (r, tbl') := insert_each failing tbl ms in
      set_txn (Some tbl') ;;
      match r with
      | Ok _ => ret tt
      | Raise e => raise e
      end
  end.

(** [conn.commit()] *)
Definition commit : M unit :=
  w <- get_world ;;
  match txn w with
  | Some t =>
      match fault with
      | CommitFails => raise SqliteError
      | _ => set_movies t ;; set_txn None
      end
  | None => ret tt
  end.

(** [conn.rollback()] *)
Definition rollback : M unit := set_txn None.

(** [with conn: body]: leaving the body commits the open transaction;
    leaving it by an exception, or a failing commit, rolls it back. *)
Definition with_conn {A} (body : M A) : M A :=
  fun w => match body w with
           | (Ok a, w') =>
               match commit w' with
               | (Ok _, w'') => (Ok a, w'')
               | (Raise e, w'') => (Raise e, snd (rollback w''))
               end
           | (Raise e, w') => (Raise e, snd (rollback w'))
           end.

(** [c.execute("SELECT normalized_name, details, file_id FROM movies")]
    followed by [c.fetchall()]: the one statement of the call, reading
    the committed table. *)
Definition execute_select : M (list movie) :=
  match fault with
  | StatementFails O => raise SqliteError
  | _ =>
      w <- get_world ;;
      ret (map (fun r => (normalized_name r, details r, file_id r)) (movies w))
  end.

Definition get_all_movies : M (list movie) :=
  connect ;;
  with_conn execute_select.

Definition insert_movies (ms : list movie) : M unit :=
  try_except
    (connect ;;
     with_conn (executemany ms ;; commit))
    (fun e => match e with
              | SqliteError => Some (logging ERROR DbBatchError)
              | _ => None
              end).
End Storage.

End DatabaseManager.

Import DatabaseManager.

(* ================================================================== *)
(** ** The metadata resolver: [fetch_movie_details_from_omdb] *)

Module Omdb.

(** A value of the decoded JSON object: a string, or anything else,
    carried as the text an f-string renders it to. *)
Inductive jvalue : Type :=
| JStr (s : str)
| JOther (rendered : str).

Definition json_object : Type := list (str * jvalue).

(** [data.get(key)] *)
Fixpoint dict_get (data : json_object) (key : str) : option jvalue :=
  match data with
  | [] => None
  | (k, v) :: tl => if PyStr.eqb k key then Some v else dict_get tl key
  end.

(** [data.get(key, default)] inside an f-string. *)
Definition get_or (data : json_object) (key default : str) : str :=
  match dict_get data key with
  | Some (JStr s) => s
  | Some (JOther rendered) => rendered
  | None => default
  end.

(** [data.get("Response") == "True"] *)
Definition response_is_true (data : json_object) : bool :=
  match dict_get data (py "Response") with
  | Some (JStr s) => PyStr.eqb s (py "True")
  | _ => false
  end.

Inductive transport_failure : Type :=
| TimedOut
| NameResolution
| ConnectionBroken.

(** What one [requests.get] meets.  The request raises a
    [RequestException] (no connection, no name, no answer in time); or
    the service answers with a status code and the JSON object of its
    lookup interface, which [response.json()] gives back as a [dict]; or
    it answers with a body that is not JSON, on which [response.json()]
    raises its [JSONDecodeError], a [RequestException] from requests
    2.27 on and a plain [ValueError] before; or it answers with JSON that
    is not an object ([null], a list, a string, a number), which
    [response.json()] decodes to a value without a [get] method. *)
Inductive exchange : Type :=
| Failed (why : transport_failure)
| Responded (status_code : Z) (data : json_object)
| Undecodable (status_code : Z) (as_request_exception : bool)
| NotAnObject (status_code : Z).

(** The body of a response, as [response.json()] finds it. *)
Inductive payload : Type :=
| Object (data : json_object)
| NonObject
| NotJson (as_request_exception : bool).

Definition not_available : str := py "Movie details not available.".
Definition error_fetching : str := py "Error fetching movie details.".

Definition summary (data : json_object) : str :=
  py "Title: " ++ get_or data (py "Title") (py "N/A") ++ [newline] ++
  py "Year: " ++ get_or data (py "Year") (py "N/A") ++ [newline] ++
  py "Genre: " ++ get_or data (py "Genre") (py "N/A") ++ [newline] ++
  py "Director: " ++ get_or data (py "Director") (py "N/A") ++ [newline] ++
  py "Plot: " ++ get_or data (py "Plot") (py "N/A").

Definition http_gets (tr : list event) : nat :=
  List.length (filter (fun e => match e with HttpGet _ => true | _ => false end) tr).

Section Service.
Variable OMDB_API_KEY : str.
(** The answer to the [n]-th request of the run, by its URL. *)
Variable service : nat -> str -> exchange.

(** [requests.get(url)] *)
Definition requests_get (url : str) : M (Z * payload) :=
  w <- get_world ;;
  emit (HttpGet url) ;;
  match service (http_gets (trace w)) url with
  | Failed _ => raise RequestException
  | Responded status_code data => ret (status_code, Object data)
  | Undecodable status_code as_request_exception =>
      ret (status_code, NotJson as_request_exception)
  | NotAnObject status_code => ret (status_code, NonObject)
  end.

(** [response.raise_for_status()] *)
Definition raise_for_status (response : Z * payload) : M unit :=
  if (400 <=? fst response)%Z && (fst response <? 600)%Z
  then raise RequestException
  else ret tt.

(** [response.json()]: the decoded value, [None] standing for one that
    is not a [dict]. *)
Definition response_json (response : Z * payload) : M (option json_object) :=
  match snd response with
  | Object data => ret (Some data)
  | NonObject => ret None
  | NotJson true => raise RequestException
  | NotJson false => raise ValueError
  end.

(** The attribute [data.get], looked up before any of its calls. *)
Definition data_get (data : option json_object) : M json_object :=
  match data with
  | Some d => ret d
  | None => raise AttributeError
  end.

Definition fetch_movie_details_from_omdb (movie_name : str) : M str :=
  let url := py "http://www.omdbapi.com/?t=" ++ movie_name
             ++ py "&apikey=" ++ OMDB_API_KEY in
  try_except
    (response <- requests_get url ;;
     raise_for_status response ;;
     data <- response_json response ;;
     data <- data_get data ;;
     if response_is_true data then ret (summary data)
     else (logging WARNING OmdbApiError ;; ret not_available))
    (fun e => match e with
              | RequestException =>
                  Some (logging ERROR OmdbFetchError ;; ret error_fetching)
              | _ => None
              end).
End Service.

End Omdb.

Import Omdb.

(* ================================================================== *)
(** ** The ingestion job: [fetch_movies_from_channel] *)

Module Ingestion.

Record document : Type := { doc_file_id : str }.

Record message : Type := {
  msg_document : option document;
  msg_caption : option str
}.

Record update : Type := {
  update_id : Z;
  upd_message : option message
}.

(** Everything outside the program that one cycle talks to. *)
Record env : Type := {
  OMDB_API_KEY : str;
  omdb_service : nat -> str -> exchange;
  (** [bot.get_updates(offset=...)]: the updates, or the exception. *)
  bot_get_updates : option Z -> result (list update);
  db_fault : storage_fault
}.

Definition no_details : str := py "No details available".

Section Job.
Variable is_alnum : char -> bool.
Variable is_space : char -> bool.
Variable is_decimal : char -> bool.
Variable int : str -> option Z.
Variable E : env.

Definition get_updates (offset : option Z) : M (list update) :=
  emit (GetUpdates offset) ;;
  match bot_get_updates E offset with
  | Ok updates => ret updates
  | Raise e => raise e
  end.

(** [update.message.caption or "No details available"] *)
Definition caption_or_default (m : message) : str :=
  match msg_caption m with
  | Some c => if truthy c then c else no_details
  | None => no_details
  end.

(** The body of [for update in updates]. *)
Definition for_update (movies_to_insert : list movie) (u : update)
  : M (list movie) :=
  (if (update_id u =? 0)%Z then ret tt
   else save_last_update_id (update_id u + 1)) ;;
  match upd_message u with
  | Some m =>
      match msg_document m with
      | Some doc =>
          let caption := caption_or_default m in
          let normalized_name :=
            normalize_movie_name is_alnum is_space is_decimal caption in
          let details := caption in
          details <-
            (if PyStr.eqb details no_details then
               online_details <-
                 fetch_movie_details_from_omdb
                   (OMDB_API_KEY E) (omdb_service E) normalized_name ;;
               ret (if truthy online_details then online_details else details)
             else ret details) ;;
          ret (movies_to_insert ++ [(normalized_name, details, doc_file_id doc)])
      | None => ret movies_to_insert
      end
  | None => ret movies_to_insert
  end.

Fixpoint for_updates (movies_to_insert : list movie) (updates : list update)
  : M (list movie) :=
  match updates with
  | [] => ret movies_to_insert
  | u :: rest =>
      movies_to_insert <- for_update movies_to_insert u ;;
      for_updates movies_to_insert rest
  end.

Definition fetch_movies_from_channel : M unit :=
  last_update_id <- get_last_update_id is_space int ;;
  logging INFO FetchingUpdates ;;
  fetched <-
    try_except
      (updates <- get_updates last_update_id ;; ret (Some updates))
      (fun e =>
         match e with
         | RetryAfter retry_after =>
             Some (logging ERROR RateLimitExceeded ;;
                   emit (Sleep retry_after) ;;
                   ret None)
         | Conflict => Some (logging ERROR AnotherInstance ;; ret None)
         | Unauthorized => Some (logging ERROR InvalidChat ;; ret None)
         | BadRequest | OtherTelegramError =>
             Some (logging ERROR FetchUpdatesError ;; ret None)
         | _ => None
         end) ;;
  match fetched with
  | None => ret tt
  | Some updates =>
      movies_to_insert <- for_updates [] updates ;;
      match movies_to_insert with
      | [] => ret tt
      | _ :: _ => insert_movies (db_fault E) movies_to_insert
      end
  end.
End Job.

End Ingestion.

Import Ingestion.

(* ================================================================== *)
(** ** The semantic matcher: [best_match] *)

Module Matcher.

Section Model.
(** The shared sentence-embedding model and its cosine similarity. *)
Variable vec : Type.
Variable embed : str -> vec.
Variable cosine_similarity : vec -> vec -> Q.
Variable floor : Q.

Definition is_sentinel (description : str) : bool :=
  PyStr.eqb description not_available || PyStr.eqb description error_fetching.

(** Modelled from the spec: the text of an entry that is embedded; the
    source loads the embedding model and never uses it. *)
Definition entry_text (m : movie) : str :=
  if negb (truthy (movie_details m)) || is_sentinel (movie_details m)
  then movie_name m else movie_details m.

Definition similarity (q : vec) (m : movie) : Q :=
  cosine_similarity q (embed (entry_text m)).

Definition distance (q : vec) (m : movie) : Q := 1 - similarity q m.

(** Modelled from the spec: the entry at the smallest cosine distance
    from the query, the earliest one among equals. *)
Fixpoint nearest (q : vec) (catalog : list movie) : option movie :=
  match catalog with
  | [] => None
  | m :: rest =>
      match nearest q rest with
      | Some b => if Qle_bool (distance q m) (distance q b) then Some m else Some b
      | None => Some m
      end
  end.

(** Modelled from the spec: [best_match(query, catalog_snapshot)], which
    the source file does not define; the nearest entry, or absent
    when its similarity is below the floor. *)
Definition best_match (query : str) (catalog : list movie) : option movie :=
  match nearest (embed query) catalog with
  | Some m => if Qle_bool floor (similarity (embed query) m) then Some m else None
  | None => None
  end.
End Model.

End Matcher.

Import Matcher.

(* ================================================================== *)
(** ** Vocabulary of the statements

    The definitions below are not code of the program: they name what
    the properties talk about, and, where a sentence of the
    specification is compared with the program, what that sentence
    says. *)

Module Stated.

Section Keys.
Variable is_alnum : char -> bool.
Variable is_space : char -> bool.
Variable is_decimal : char -> bool.

(** All the 4-digit substrings of [s], from the left. *)
Fixpoint year_windows (s : str) : list str :=
  match s with
  | [] => []
  | _ :: tl =>
      match year_at is_decimal s with
      | Some y => y :: year_windows tl
      | None => year_windows tl
      end
  end.

(** [s] contains two or more distinct 4-digit substrings. *)
Definition distinct_years (s : str) : bool :=
  let ws := year_windows s in
  existsb (fun y => existsb (fun z => negb (PyStr.eqb y z)) ws) ws.

(** Deleting the first match only, as [re.sub(..., count=1)] would. *)
Fixpoint sub_first_year (name : str) : str :=
  match name with
  | [] => []
  | a :: tl =>
      match year_at is_decimal name with
      | Some _ => skipn 3 tl
      | None => a :: sub_first_year tl
      end
  end.

(** The canonical key as the specification words it: the first match is
    the year and only that occurrence leaves the body. *)
Definition normalize_first_only (caption : str) : str :=
  let name := cleaned is_alnum is_space caption in
  match search_year is_decimal name with
  | Some year => strip is_space (sub_first_year name) ++ py " (" ++ year ++ py ")"
  | None => name
  end.

(** The body of a key: the key without a trailing [" (dddd)"]. *)
Definition key_body (key : str) : str :=
  match rev key with
  | 41%N :: d4 :: d3 :: d2 :: d1 :: 40%N :: 32%N :: body =>
      if is_decimal d1 && is_decimal d2 && is_decimal d3 && is_decimal d4
      then rev body else key
  | _ => key
  end.

Fixpoint single_spaced (s : str) : bool :=
  match s with
  | a :: tl =>
      match tl with
      | b :: _ => negb (char_eqb a space && char_eqb b space) && single_spaced tl
      | [] => true
      end
  | [] => true
  end.

(** The shape of a key as the specification words it: alphanumeric
    characters and single spaces, then the optional parenthesized year. *)
Definition key_as_stated (key : str) : bool :=
  let body := key_body key in
  forallb (fun c => is_alnum c || char_eqb c space) body && single_spaced body.

(** A character that [normalize_movie_name] lets through unchanged, or
    the space it puts in place of the others. *)
Definition word_or_space (c : char) : Prop :=
  is_word is_alnum c = true \/ c = space.
End Keys.

(** The table after the first [k] tuples of a batch went in, which is
    what a partial commit up to a failure at tuple [k] would leave. *)
Definition partial_commit (tbl : list row) (batch : list movie) (k : nat) : list row :=
  fold_left insert_or_ignore (firstn k batch) tbl.

Definition names (tbl : list row) : list str := map normalized_name tbl.

(** The rows of [tbl] stored under [name]. *)
Definition rows_named (name : str) (tbl : list row) : list row :=
  filter (fun r => PyStr.eqb (normalized_name r) name) tbl.

(** Whether the storage fault is met while [batch] is inserted. *)
Definition fault_strikes (fault : storage_fault) (batch : list movie) : bool :=
  match fault with
  | NoFault => false
  | ConnectFails => true
  | StatementFails k => (k <? List.length batch)%nat
  | CommitFails => match batch with [] => false | _ :: _ => true end
  end.

(** The messages of a list of updates that carry a document. *)
Fixpoint documents (updates : list update) : list (message * document) :=
  match updates with
  | [] => []
  | u :: rest =>
      match upd_message u with
      | Some m =>
          match msg_document m with
          | Some doc => (m, doc) :: documents rest
          | None => documents rest
          end
      | None => documents rest
      end
  end.

(** The messages the job looks up online: no caption, an empty caption,
    or a caption that is the placeholder text itself. *)
Definition lookup_needed (m : message) : bool :=
  match msg_caption m with
  | None => true
  | Some c => negb (truthy c) || PyStr.eqb c no_details
  end.

(** How many of the messages need a lookup. *)
Definition lookups (docs : list (message * document)) : nat :=
  List.length (filter (fun md => lookup_needed (fst md)) docs).

(** The errors of the channel client that the job handles. *)
Definition handled (e : exn) : bool :=
  match e with
  | RetryAfter _ | Conflict | Unauthorized | BadRequest | OtherTelegramError => true
  | _ => false
  end.

(** The world after the events [evs], nothing else changed. *)
Definition after (w : world) (evs : list event) : world :=
  mkWorld (cursor_file w) (movies w) (txn w) (trace w ++ evs).

Definition is_error_status (status_code : Z) : bool :=
  (400 <=? status_code)%Z && (status_code <? 600)%Z.

Definition omdb_url (key movie_name : str) : str :=
  py "http://www.omdbapi.com/?t=" ++ movie_name ++ py "&apikey=" ++ key.

(** The exception a lookup lets through to its caller, when the exchange
    leads to one: a body that is not a JSON object, met after the status
    check has passed. *)
Definition escapes (x : exchange) : option exn :=
  match x with
  | Failed _ | Responded _ _ => None
  | Undecodable status_code as_request_exception =>
      if is_error_status status_code || as_request_exception then None
      else Some ValueError
  | NotAnObject status_code =>
      if is_error_status status_code then None else Some AttributeError
  end.

(** An answer as the lookup interface of the service gives it: no answer
    at all, or a status code with a JSON object. *)
Definition well_formed (x : exchange) : bool :=
  match x with
  | Failed _ | Responded _ _ => true
  | Undecodable _ _ | NotAnObject _ => false
  end.

(** The description one exchange with the service leads to when the
    lookup returns, and what is logged on the way. *)
Definition answer (x : exchange) : str :=
  match x with
  | Failed _ => error_fetching
  | Responded status_code data =>
      if is_error_status status_code then error_fetching
      else if response_is_true data then summary data
      else not_available
  | Undecodable _ _ | NotAnObject _ => error_fetching
  end.

Definition answer_log (x : exchange) : list event :=
  match x with
  | Failed _ => [Log ERROR OmdbFetchError]
  | Responded status_code data =>
      if is_error_status status_code then [Log ERROR OmdbFetchError]
      else if response_is_true data then []
      else [Log WARNING OmdbApiError]
  | Undecodable _ _ | NotAnObject _ => [Log ERROR OmdbFetchError]
  end.

Section Staging.
Variable normalize : str -> str.
Variable E : env.

(** How a staged tuple relates to the message it was made from: the file
    and the key always; the caption as details when no lookup is needed;
    otherwise what some exchange with the service gave. *)
Definition staged_from (md : message * document) (entry : movie) : Prop :=
  movie_file entry = doc_file_id (snd md) /\
  movie_name entry = normalize (caption_or_default (fst md)) /\
  (lookup_needed (fst md) = false -> msg_caption (fst md) = Some (movie_details entry)) /\
  (lookup_needed (fst md) = true ->
   exists n, movie_details entry =
             answer (omdb_service E n (omdb_url (OMDB_API_KEY E) (normalize no_details)))).
End Staging.

(** What the job logs and does after a channel error it handles. *)
Definition abort_events (e : exn) : list event :=
  match e with
  | RetryAfter retry_after => [Log ERROR RateLimitExceeded; Sleep retry_after]
  | Conflict => [Log ERROR AnotherInstance]
  | Unauthorized => [Log ERROR InvalidChat]
  | BadRequest | OtherTelegramError => [Log ERROR FetchUpdatesError]
  | _ => []
  end.

Definition is_write (e : event) : bool :=
  match e with
  | CursorWrite _ | ExecuteMany _ | HttpGet _ => true
  | _ => false
  end.

End Stated.

Import Stated.

(* ================================================================== *)
(** ** Sample runs *)

Module Samples.

Definition blank : world := mkWorld None [] None [].

(** An update number 7 carrying a document, with the given caption. *)
Definition posting (caption : option str) : update :=
  {| update_id := 7;
     upd_message := Some {| msg_document := Some {| doc_file_id := py "file-1" |};
                            msg_caption := caption |} |}.

Definition heat_found : json_object :=
  [(py "Response", JStr (py "True")); (py "Title", JStr (py "Heat"));
   (py "Year", JStr (py "1995"))].

Definition answering (updates : list update) (service : nat -> str -> exchange)
  : env :=
  {| OMDB_API_KEY := py "k";
     omdb_service := service;
     bot_get_updates := fun _ => Ok updates;
     db_fault := NoFault |}.

Definition failing (e : exn) : env :=
  {| OMDB_API_KEY := py "k";
     omdb_service := fun _ _ => Failed NameResolution;
     bot_get_updates := fun _ => Raise e;
     db_fault := NoFault |}.

(** A toy embedding for running the matcher: a text is its own vector,
    and two vectors are at similarity 1 when equal, 0 otherwise. *)
Definition same_text (a b : str) : Q := if PyStr.eqb a b then 1%Q else 0%Q.

Definition shelf : list movie :=
  [(py "Heat (1995)", py "A heist film", py "f1");
   (py "Ran (1985)", py "Movie details not available.", py "f2")].

(** The job with the Basic Latin tables. *)
Definition job_latin : env -> M unit :=
  fetch_movies_from_channel Latin.is_alnum Latin.is_space Latin.is_decimal latin_int.

End Samples.

Import Samples.

(* ================================================================== *)
(** ** Start-up configuration: the module-level code *)

Module Config.

(** The module-level names, as they stand once the module has loaded. *)
Record settings : Type := {
  TELEGRAM_BOT_TOKEN : option str;
  OMDB_API_KEY : option str;
  DB_FILE : str;
  JOB_INTERVAL : Z;
  CHANNEL_CHAT_ID : option str;
  CHANNEL_LINK : option str;
  LAST_UPDATE_ID_FILE : str
}.

(** The [ValueError]s that stop the module from loading, by the
    statement that raises them. *)
Inductive startup_error : Type :=
| JobIntervalNotInt                (* int(os.getenv("JOB_INTERVAL", 1800)) *)
| TokenNotSet                      (* "TELEGRAM_BOT_TOKEN is not set. ..." *)
| OmdbKeyNotSet                    (* "OMDB_API_KEY is not set. ..." *)
| ChatIdNotSet.                    (* "CHANNEL_CHAT_ID is not set. ..." *)

(** [not v] for a value read by [os.getenv]: unset or empty. *)
Definition falsy (v : option str) : bool :=
  match v with
  | Some s => negb (truthy s)
  | None => true
  end.

Section Environment.
(** The built-in [int] on a string, and [os.getenv] after [load_dotenv()]. *)
Variable int : str -> option Z.
Variable getenv : str -> option str.

Definition getenv_default (name default : str) : str :=
  match getenv name with
  | Some v => v
  | None => default
  end.

(** Lines 21 to 35: the assignments in their order, then the checks. *)
Definition load : settings + startup_error :=
  let token := getenv (py "TELEGRAM_BOT_TOKEN") in
  let omdb_key := getenv (py "OMDB_API_KEY") in
  let db_file := getenv_default (py "DATABASE_FILE") (py "movies.db") in
  match (match getenv (py "JOB_INTERVAL") with
         | Some v => int v
         | None => Some 1800%Z
         end) with
  | None => inr JobIntervalNotInt
  | Some job_interval =>
      let chat_id := getenv (py "CHANNEL_CHAT_ID") in
      let link := getenv (py "CHANNEL_LINK") in
      if falsy token then inr TokenNotSet
      else if falsy omdb_key then inr OmdbKeyNotSet
      else if falsy chat_id then inr ChatIdNotSet
      else inl {| TELEGRAM_BOT_TOKEN := token;
                  OMDB_API_KEY := omdb_key;
                  DB_FILE := db_file;
                  JOB_INTERVAL := job_interval;
                  CHANNEL_CHAT_ID := chat_id;
                  CHANNEL_LINK := link;
                  LAST_UPDATE_ID_FILE := py "last_update_id.txt" |}
  end.
End Environment.

(** A sample environment: a list of assignments, the first one winning. *)
Fixpoint lookup_env (vars : list (str * str)) (name : str) : option str :=
  match vars with
  | [] => None
  | (k, v) :: tl => if PyStr.eqb k name then Some v else lookup_env tl name
  end.

End Config.

(* ================================================================== *)
(** ** What a run leaves behind *)

Module Observed.

(** The value of a decimal numeral read after the digits that gave [acc]. *)
Fixpoint digits_value (d : Decimal.uint) (acc : Z) : Z :=
  match d with
  | Decimal.Nil => acc
  | Decimal.D0 l => digits_value l (10 * acc)
  | Decimal.D1 l => digits_value l (10 * acc + 1)
  | Decimal.D2 l => digits_value l (10 * acc + 2)
  | Decimal.D3 l => digits_value l (10 * acc + 3)
  | Decimal.D4 l => digits_value l (10 * acc + 4)
  | Decimal.D5 l => digits_value l (10 * acc + 5)
  | Decimal.D6 l => digits_value l (10 * acc + 6)
  | Decimal.D7 l => digits_value l (10 * acc + 7)
  | Decimal.D8 l => digits_value l (10 * acc + 8)
  | Decimal.D9 l => digits_value l (10 * acc + 9)
  end.

(** The contents written to the cursor file, the URLs requested and the
    batches executed, in order. *)
Definition cursor_writes (evs : list event) : list str :=
  flat_map (fun e => match e with CursorWrite c => [c] | _ => [] end) evs.

Definition requested (evs : list event) : list str :=
  flat_map (fun e => match e with HttpGet url => [url] | _ => [] end) evs.

Definition executed (evs : list event) : list (list movie) :=
  flat_map (fun e => match e with ExecuteMany b => [b] | _ => [] end) evs.

(** The cursor values a list of updates makes the job save: one more
    than the identifier of each update whose identifier is not zero. *)
Definition advanced (updates : list update) : list Z :=
  map (fun u => update_id u + 1)%Z
      (filter (fun u => negb (update_id u =? 0)%Z) updates).

(** The content of the cursor file after the values [saved] were
    written over [before]. *)
Definition cursor_after (before : option str) (saved : list Z) : option str :=
  last (map (fun n => Some (str_of_int n)) saved) before.

(** Whether a storage fault is met by a batch of [n] tuples. *)
Definition strikes_at (fault : storage_fault) (n : nat) : bool :=
  match fault with
  | NoFault => false
  | ConnectFails => true
  | StatementFails k => (k <? n)%nat
  | CommitFails => negb (n =? 0)%nat
  end.

(** The tuples [get_all_movies] returns for a table. *)
Definition tuples (tbl : list row) : list movie :=
  map (fun r => (normalized_name r, details r, file_id r)) tbl.

End Observed.

Import Observed.

(* ================================================================== *)
(** * Properties *)

(** ** Strings *)

Lemma eqb_eq (a b : str) : PyStr.eqb a b = true <-> a = b.
Proof.
  revert b; induction a as [|x a IH]; intros [|y b]; simpl; split;
    try congruence; try reflexivity.
  - intros H. apply andb_prop in H as [Hx Ha].
    apply N.eqb_eq in Hx. apply IH in Ha. congruence.
  - intros H. injection H as -> ->.
    unfold char_eqb. rewrite N.eqb_refl. simpl. now apply IH.
Qed.

Lemma eqb_refl (a : str) : PyStr.eqb a a = true.
Proof. now apply eqb_eq. Qed.

Lemma eqb_neq (a b : str) : PyStr.eqb a b = false <-> a <> b.
Proof.
  split.
  - intros H E. apply eqb_eq in E. congruence.
  - intros H. destruct (PyStr.eqb a b) eqn:E; [|reflexivity].
    apply eqb_eq in E. contradiction.
Qed.

Section StripFacts.
Variable is_space : char -> bool.

Lemma lstrip_suffix (s : str) :
  exists p, s = p ++ lstrip is_space s /\ forallb is_space p = true.
Proof.
  induction s as [|c tl IH]; simpl.
  - exists []. split; reflexivity.
  - destruct (is_space c) eqn:Hc.
    + destruct IH as (p & Hp & Hall). exists (c :: p). simpl.
      rewrite Hc, Hall. split; [now f_equal | reflexivity].
    + exists []. split; reflexivity.
Qed.

Lemma rstrip_prefix (s : str) :
  exists q, s = rstrip is_space s ++ q /\ forallb is_space q = true.
Proof.
  unfold rstrip. destruct (lstrip_suffix (rev s)) as (p & Hp & Hall).
  exists (rev p). split.
  - rewrite <- rev_app_distr, <- Hp. now rewrite rev_involutive.
  - rewrite forallb_forall in *. intros x Hx. apply Hall.
    now apply in_rev.
Qed.

Lemma strip_infix (s : str) :
  exists p q, s = p ++ strip is_space s ++ q.
Proof.
  unfold strip. destruct (lstrip_suffix s) as (p & Hp & _).
  destruct (rstrip_prefix (lstrip is_space s)) as (q & Hq & _).
  exists p, q. now rewrite <- Hq.
Qed.

Lemma strip_incl (s : str) (c : char) : In c (strip is_space s) -> In c s.
Proof.
  destruct (strip_infix s) as (p & q & E). intros H.
  rewrite E. apply in_or_app. right. apply in_or_app. now left.
Qed.

Lemma lstrip_all_space (s : str) :
  forallb is_space s = true -> lstrip is_space s = [].
Proof.
  induction s as [|c tl IH]; simpl; [reflexivity|].
  intros H. apply andb_prop in H as [Hc Htl]. rewrite Hc. now apply IH.
Qed.

Lemma strip_all_space (s : str) :
  forallb is_space s = true -> strip is_space s = [].
Proof.
  intros H. unfold strip. now rewrite lstrip_all_space.
Qed.
End StripFacts.

(** ** The canonicalizer *)

Section CanonicalizerFacts.
Variable is_alnum : char -> bool.
Variable is_space : char -> bool.
Variable is_decimal : char -> bool.

Local Notation normalize := (normalize_movie_name is_alnum is_space is_decimal).
Local Notation word := (is_word is_alnum).
Local Notation year_at := (year_at is_decimal).
Local Notation search_year := (search_year is_decimal).
Local Notation sub_years := (sub_years is_decimal).

Lemma sub_special_chars (s : str) (c : char) :
  In c (sub_special is_alnum is_space s) ->
  word c = true \/ is_space c = true \/ c = space.
Proof.
  unfold sub_special. rewrite in_map_iff. intros (x & Hx & _).
  destruct (word x) eqn:Hw; simpl in Hx.
  - subst. now left.
  - destruct (is_space x) eqn:Hs; subst; auto.
Qed.

Lemma sub_spaces_chars (s : str) (c : char) :
  In c (sub_spaces is_space s) ->
  c = space \/ (In c s /\ is_space c = false).
Proof using is_space.
  induction s as [|a tl IH]; simpl; [intros []|].
  destruct (is_space a) eqn:Ha.
  - destruct tl as [|b tl'].
    + simpl. intros [H|[]]. now left.
    + destruct (is_space b) eqn:Hb.
      * intros H. destruct (IH H) as [|[? ?]]; auto.
      * intros [H|H]; [now left|].
        destruct (IH H) as [|[? ?]]; auto.
  - intros [H|H].
    + subst. right. split; [now left | assumption].
    + destruct (IH H) as [|[? ?]]; auto.
Qed.

Lemma cleaned_chars (caption : str) (c : char) :
  In c (cleaned is_alnum is_space caption) ->
  word c = true \/ c = space.
Proof using is_alnum is_space.
  unfold cleaned. intros H. apply strip_incl in H.
  apply sub_spaces_chars in H as [H|[H Hs]]; [now right|].
  apply sub_special_chars in H as [H|[H|H]]; auto. congruence.
Qed.

Lemma sub_spaces_all_space (s : str) :
  forallb is_space s = true ->
  sub_spaces is_space s = [] \/ sub_spaces is_space s = [space].
Proof.
  induction s as [|a tl IH]; simpl; [now left|].
  intros H. apply andb_prop in H as [Ha Htl]. rewrite Ha.
  destruct tl as [|b tl']; [now right|].
  simpl in Htl. apply andb_prop in Htl as [Hb Htl']. rewrite Hb.
  apply IH. simpl. now rewrite Hb, Htl'.
Qed.

(** *** The year pattern *)

Lemma year_at_digits (s y : str) :
  year_at s = Some y ->
  List.length y = 4%nat /\ forallb is_decimal y = true /\ exists post, s = y ++ post.
Proof.
  destruct s as [|a [|b [|c [|d rest]]]]; simpl; try discriminate.
  destruct (is_decimal a) eqn:Ha, (is_decimal b) eqn:Hb,
           (is_decimal c) eqn:Hc, (is_decimal d) eqn:Hd;
    simpl; try discriminate.
  intros [= <-]. simpl. rewrite Ha, Hb, Hc, Hd.
  repeat split. now exists rest.
Qed.

Lemma year_at_app (p q y : str) :
  year_at p = Some y -> year_at (p ++ q) = Some y.
Proof.
  destruct p as [|a [|b [|c [|d rest]]]]; simpl; try discriminate. auto.
Qed.

Lemma year_at_short (s : str) :
  (List.length s < 4)%nat -> year_at s = None.
Proof.
  destruct s as [|a [|b [|c [|d rest]]]]; simpl; try reflexivity. lia.
Qed.

Lemma search_year_none_cons (a : char) (s : str) :
  search_year (a :: s) = None <-> year_at (a :: s) = None /\ search_year s = None.
Proof.
  change (search_year (a :: s))
    with (match year_at (a :: s) with Some y => Some y | None => search_year s end).
  destruct (year_at (a :: s)); split; try intros [? ?]; try discriminate; auto.
Qed.

Lemma search_year_suffix (p s : str) :
  search_year (p ++ s) = None -> search_year s = None.
Proof.
  induction p as [|a p IH]; [auto|].
  rewrite <- app_comm_cons. intros H.
  apply search_year_none_cons in H as [_ H]. auto.
Qed.

Lemma search_year_prefix (s q : str) :
  search_year (s ++ q) = None -> search_year s = None.
Proof.
  induction s as [|a s IH]; [reflexivity|].
  rewrite <- app_comm_cons. intros H.
  apply search_year_none_cons in H as [Hy H].
  apply search_year_none_cons. split; [|auto].
  destruct (year_at (a :: s)) eqn:E; [|reflexivity].
  apply (year_at_app _ q) in E. rewrite <- app_comm_cons in E. congruence.
Qed.

Lemma search_year_strip (s : str) :
  search_year s = None -> search_year (strip is_space s) = None.
Proof.
  destruct (strip_infix is_space s) as (p & q & E). intros H.
  rewrite E in H. apply search_year_suffix in H.
  now apply search_year_prefix in H.
Qed.

Lemma search_year_short (s : str) :
  (List.length s < 4)%nat -> search_year s = None.
Proof.
  induction s as [|a s IH]; [reflexivity|].
  intros H. apply search_year_none_cons. split.
  - now apply year_at_short.
  - apply IH. simpl in H. lia.
Qed.

(** The match of [re.search] is the leftmost one. *)
Lemma search_year_leftmost (s y : str) :
  search_year s = Some y ->
  exists pre post,
    s = pre ++ y ++ post /\
    List.length y = 4%nat /\ forallb is_decimal y = true /\
    search_year (pre ++ firstn 3 y) = None.
Proof.
  induction s as [|a s IH]; [discriminate|].
  change (search_year (a :: s))
    with (match year_at (a :: s) with Some y => Some y | None => search_year s end).
  destruct (year_at (a :: s)) eqn:E.
  - intros [= ->]. destruct (year_at_digits _ E) as (Hl & Hd & post & Hs).
    exists [], post. cbn [app]. repeat split; auto.
    apply search_year_short. rewrite length_firstn. lia.
  - intros H. destruct (IH H) as (pre & post & Hs & Hl & Hd & Hn).
    exists (a :: pre), post. repeat split; auto.
    + simpl. now f_equal.
    + rewrite <- app_comm_cons. apply search_year_none_cons. split; [|assumption].
      destruct (year_at (a :: pre ++ firstn 3 y)) eqn:E'; [|reflexivity].
      apply (year_at_app _ (skipn 3 y ++ post)) in E'.
      rewrite <- app_comm_cons, <- app_assoc in E'.
      rewrite (app_assoc (firstn 3 y)), firstn_skipn, <- Hs in E'. congruence.
Qed.

(** *** Deleting the matches *)

Lemma sub_years_eq (a : char) (tl : str) :
  sub_years (a :: tl) =
  match year_at (a :: tl) with
  | Some _ => sub_years (skipn 3 tl)
  | None => a :: sub_years tl
  end.
Proof.
  destruct tl as [|b [|c [|d rest]]]; try reflexivity.
Qed.

Lemma sub_years_incl (s : str) (c : char) :
  In c (sub_years s) -> In c s.
Proof.
  remember (List.length s) as n eqn:Hn.
  revert s Hn. induction n as [n IH] using lt_wf_ind. intros s Hn.
  destruct s as [|a tl]; [auto|].
  rewrite sub_years_eq. destruct (year_at (a :: tl)).
  - intros H. right.
    apply (IH (List.length (skipn 3 tl))) in H; [|subst; cbn [List.length]|reflexivity].
    + rewrite <- (firstn_skipn 3 tl). apply in_or_app. now right.
    + rewrite length_skipn. lia.
  - intros [H|H]; [now left|]. right.
    apply (IH (List.length tl)) in H; [assumption|subst; simpl; lia|reflexivity].
Qed.

Lemma year_at_is_some (a b c d : char) (rest : str) :
  year_at (a :: b :: c :: d :: rest) <> None <->
  is_decimal a = true /\ is_decimal b = true /\
  is_decimal c = true /\ is_decimal d = true.
Proof.
  simpl. destruct (is_decimal a), (is_decimal b), (is_decimal c), (is_decimal d);
    simpl; split; try intros (? & ? & ? & ?); try congruence; auto.
Qed.

(** A match cannot begin on a character that the scan has kept. *)
Lemma year_at_kept (a : char) (tl : str) :
  year_at (a :: tl) = None -> year_at (a :: sub_years tl) = None.
Proof.
  intros Hnone.
  destruct (year_at (a :: sub_years tl)) eqn:E; [exfalso|reflexivity].
  assert (Hsome : year_at (a :: sub_years tl) <> None) by congruence.
  clear E.
  destruct tl as [|b tl]; [simpl in Hsome; congruence|].
  rewrite sub_years_eq in Hsome.
  destruct (year_at (b :: tl)) eqn:Eb.
  { destruct tl as [|c [|d [|e rest]]]; try discriminate.
    assert (Hb : year_at (b :: c :: d :: e :: rest) <> None) by congruence.
    apply year_at_is_some in Hb as (Hb & Hc & Hd & He).
    assert (Ha : is_decimal a = true).
    { destruct (sub_years (skipn 3 (c :: d :: e :: rest))) as [|x [|y [|z r]]];
        simpl in Hsome; try congruence.
      destruct (is_decimal a); [reflexivity|simpl in Hsome; congruence]. }
    simpl in Hnone. rewrite Ha, Hb, Hc, Hd in Hnone. discriminate. }
  destruct tl as [|c tl]; [simpl in Hsome; congruence|].
  rewrite sub_years_eq in Hsome.
  destruct (year_at (c :: tl)) eqn:Ec.
  { destruct tl as [|d [|e [|f rest]]]; try discriminate.
    assert (Hc : year_at (c :: d :: e :: f :: rest) <> None) by congruence.
    apply year_at_is_some in Hc as (Hc & Hd & He & Hf).
    assert (Hab : is_decimal a = true /\ is_decimal b = true).
    { destruct (sub_years (skipn 3 (d :: e :: f :: rest))) as [|x [|y r]];
        simpl in Hsome; try congruence.
      destruct (is_decimal a), (is_decimal b); simpl in Hsome; auto; congruence. }
    destruct Hab as [Ha Hb].
    simpl in Hnone. rewrite Ha, Hb, Hc, Hd in Hnone. discriminate. }
  destruct tl as [|d tl]; [simpl in Hsome; congruence|].
  rewrite sub_years_eq in Hsome.
  destruct (year_at (d :: tl)) eqn:Ed.
  { destruct tl as [|e [|f [|g rest]]]; try discriminate.
    assert (Hd : year_at (d :: e :: f :: g :: rest) <> None) by congruence.
    apply year_at_is_some in Hd as (Hd & He & Hf & Hg).
    assert (Habc : is_decimal a = true /\ is_decimal b = true /\ is_decimal c = true).
    { destruct (sub_years (skipn 3 (e :: f :: g :: rest))) as [|x r];
        simpl in Hsome; try congruence.
      destruct (is_decimal a), (is_decimal b), (is_decimal c);
        simpl in Hsome; auto; congruence. }
    destruct Habc as (Ha & Hb & Hc).
    simpl in Hnone. rewrite Ha, Hb, Hc, Hd in Hnone. discriminate. }
  apply year_at_is_some in Hsome as (Ha & Hb & Hc & Hd).
  simpl in Hnone. rewrite Ha, Hb, Hc, Hd in Hnone. discriminate.
Qed.

(** After [re.sub(r'(\d{4})', '', name)] the pattern matches nowhere. *)
Lemma sub_years_no_year (s : str) : search_year (sub_years s) = None.
Proof.
  remember (List.length s) as n eqn:Hn.
  revert s Hn. induction n as [n IH] using lt_wf_ind. intros s Hn.
  destruct s as [|a tl]; [reflexivity|].
  rewrite sub_years_eq. destruct (year_at (a :: tl)) eqn:E.
  - apply (IH (List.length (skipn 3 tl))); [|reflexivity].
    subst. cbn [List.length]. rewrite length_skipn. lia.
  - apply search_year_none_cons. split.
    + now apply year_at_kept.
    + apply (IH (List.length tl)); [subst; simpl; lia | reflexivity].
Qed.

End CanonicalizerFacts.

Example matrix_key :
  normalize_latin (py "The Matrix, 1999!!") = py "The Matrix (1999)".
Proof. reflexivity. Qed.

Example empty_key : normalize_latin (py "") = py "".
Proof. reflexivity. Qed.

Example punctuation_only_key : normalize_latin (py "?! ... --") = py "".
Proof. reflexivity. Qed.

Example year_only_key : normalize_latin (py "1999") = py " (1999)".
Proof. reflexivity. Qed.

Example long_digit_run_key : normalize_latin (py "x123456789") = py "x9 (1234)".
Proof. reflexivity. Qed.

Section CanonicalKeys.
Variable is_alnum : char -> bool.
Variable is_space : char -> bool.
Variable is_decimal : char -> bool.

Local Notation normalize := (normalize_movie_name is_alnum is_space is_decimal).

Lemma normalize_unfold (caption : str) :
  normalize caption =
  match search_year is_decimal (cleaned is_alnum is_space caption) with
  | Some year =>
      strip is_space (sub_years is_decimal (cleaned is_alnum is_space caption))
      ++ py " (" ++ year ++ py ")"
  | None => cleaned is_alnum is_space caption
  end.
Proof. reflexivity. Qed.

(** C2, as the program has it: when the cleaned caption contains a run
    of four digits, the key is a body followed by the leftmost such run
    in parentheses, and every match of the pattern has left the body: no
    four consecutive digits remain in it, later years included. *)
Theorem normalize_removes_every_year (caption year : str) :
  search_year is_decimal (cleaned is_alnum is_space caption) = Some year ->
  exists body pre post,
    normalize caption = body ++ py " (" ++ year ++ py ")" /\
    cleaned is_alnum is_space caption = pre ++ year ++ post /\
    search_year is_decimal (pre ++ firstn 3 year) = None /\
    List.length year = 4%nat /\ forallb is_decimal year = true /\
    search_year is_decimal body = None.
Proof.
  intros H. destruct (search_year_leftmost _ _ H) as (pre & post & Hs & Hl & Hd & Hn).
  exists (strip is_space (sub_years is_decimal (cleaned is_alnum is_space caption))), pre, post.
  repeat split; auto.
  - now rewrite normalize_unfold, H.
  - apply search_year_strip, sub_years_no_year.
Qed.

(** C7, as the program has it: the key is a body made of word characters
    (alphanumeric or underscore) and spaces, alone or followed by a
    parenthesized run of four digits; and a caption without any word
    character, the empty one included, has the empty key. *)
Theorem normalize_key_shape (caption : str) :
  is_space space = true ->
  (exists body,
     Forall (word_or_space is_alnum) body /\
     (normalize caption = body \/
      exists year, List.length year = 4%nat /\ forallb is_decimal year = true /\
                   normalize caption = body ++ py " (" ++ year ++ py ")")) /\
  ((forall c, In c caption -> is_word is_alnum c = false) -> normalize caption = []).
Proof.
  intros Hsp. split.
  - rewrite normalize_unfold.
    destruct (search_year is_decimal (cleaned is_alnum is_space caption)) as [year|] eqn:E.
    + exists (strip is_space (sub_years is_decimal (cleaned is_alnum is_space caption))).
      split.
      * apply Forall_forall. intros c Hc.
        apply strip_incl, sub_years_incl in Hc.
        now apply cleaned_chars in Hc.
      * right. exists year.
        destruct (search_year_leftmost _ _ E) as (_ & _ & _ & Hl & Hd & _). auto.
    + exists (cleaned is_alnum is_space caption). split; [|now left].
      apply Forall_forall. intros c Hc. now apply cleaned_chars in Hc.
  - intros Hall.
    assert (Hc : cleaned is_alnum is_space caption = []).
    { unfold cleaned.
      assert (Hs : forallb is_space (sub_special is_alnum is_space caption) = true).
      { apply forallb_forall. intros c Hc. unfold sub_special in Hc.
        apply in_map_iff in Hc as (x & Hx & Hin).
        rewrite (Hall x Hin) in Hx. simpl in Hx.
        destruct (is_space x) eqn:Hsx; subst; assumption. }
      destruct (sub_spaces_all_space _ _ Hs) as [-> | ->]; [reflexivity|].
      apply strip_all_space. simpl. now rewrite Hsp. }
    rewrite normalize_unfold, Hc. reflexivity.
Qed.

End CanonicalKeys.

Lemma normalize_removes_every_year_witness :
  exists body pre post,
    normalize_latin (py "A 1999 B 2005") = body ++ py " (" ++ py "1999" ++ py ")" /\
    cleaned Latin.is_alnum Latin.is_space (py "A 1999 B 2005") = pre ++ py "1999" ++ post /\
    search_year Latin.is_decimal (pre ++ firstn 3 (py "1999")) = None /\
    List.length (py "1999") = 4%nat /\ forallb Latin.is_decimal (py "1999") = true /\
    search_year Latin.is_decimal body = None.
Proof.
  apply (@normalize_removes_every_year
           Latin.is_alnum Latin.is_space Latin.is_decimal (py "A 1999 B 2005") (py "1999")).
  reflexivity.
Defined.

(** C2 fails as worded: with two years in the caption the second one
    leaves the body too, where deleting the first occurrence only would
    keep it. *)
Lemma later_year_is_removed_too :
  distinct_years Latin.is_decimal (py "A 1999 B 2005") = true /\
  normalize_latin (py "A 1999 B 2005") = py "A  B (1999)" /\
  normalize_first_only Latin.is_alnum Latin.is_space Latin.is_decimal (py "A 1999 B 2005")
    = py "A  B 2005 (1999)" /\
  normalize_latin (py "A 1999 B 2005")
    <> normalize_first_only Latin.is_alnum Latin.is_space Latin.is_decimal (py "A 1999 B 2005").
Proof. repeat split; try reflexivity. discriminate. Qed.

Lemma normalize_key_shape_witness :
  (exists body,
     Forall (word_or_space Latin.is_alnum) body /\
     (normalize_latin (py "?!") = body \/
      exists year, List.length year = 4%nat /\ forallb Latin.is_decimal year = true /\
                   normalize_latin (py "?!") = body ++ py " (" ++ year ++ py ")")) /\
  ((forall c, In c (py "?!") -> is_word Latin.is_alnum c = false) ->
   normalize_latin (py "?!") = []).
Proof.
  apply (@normalize_key_shape Latin.is_alnum Latin.is_space Latin.is_decimal (py "?!")).
  reflexivity.
Defined.

(** C7 fails as worded: the underscore is a word character of the
    pattern, so it survives into the key. *)
Lemma underscore_survives :
  normalize_latin (py "a_b") = py "a_b" /\
  In underscore (normalize_latin (py "a_b")) /\
  Latin.is_alnum underscore = false /\
  key_as_stated Latin.is_alnum Latin.is_decimal (normalize_latin (py "a_b")) = false.
Proof. repeat split; try reflexivity. right; left; reflexivity. Qed.

(** C6 at a caption with the year in the middle: the key keeps the two
    spaces that surrounded the year, and normalizing the key again
    merges them, so the key is not a fixed point. *)
Theorem normalize_not_idempotent :
  normalize_latin (py "Movie 1999 720p") = py "Movie  720p (1999)" /\
  normalize_latin (normalize_latin (py "Movie 1999 720p")) = py "Movie 720p (1999)" /\
  normalize_latin (normalize_latin (py "Movie 1999 720p"))
    <> normalize_latin (py "Movie 1999 720p").
Proof. repeat split; try reflexivity. discriminate. Qed.

(** ** Normalizing a key again *)

Section StripShape.
Variable is_space : char -> bool.

Lemma lstrip_head (s : str) :
  lstrip is_space s = [] \/
  exists h t, lstrip is_space s = h :: t /\ is_space h = false.
Proof.
  induction s as [|c tl IH]; simpl; [now left|].
  destruct (is_space c) eqn:Hc; [assumption|].
  right. now exists c, tl.
Qed.

Lemma lstrip_fixed (h : char) (t : str) :
  is_space h = false -> lstrip is_space (h :: t) = h :: t.
Proof. intros H. simpl. now rewrite H. Qed.

Lemma rstrip_snoc (s : str) (c : char) :
  rstrip is_space (s ++ [c]) = if is_space c then rstrip is_space s else s ++ [c].
Proof.
  unfold rstrip. rewrite rev_app_distr. simpl.
  destruct (is_space c); [reflexivity|].
  simpl. now rewrite rev_involutive.
Qed.

Lemma rstrip_last (s : str) :
  rstrip is_space s = [] \/
  exists a c, rstrip is_space s = a ++ [c] /\ is_space c = false.
Proof.
  unfold rstrip. destruct (lstrip_head (rev s)) as [-> | (h & t & -> & Hh)].
  - now left.
  - right. exists (rev t), h. split; [reflexivity|assumption].
Qed.

(** A stripped string is empty, or begins and ends with characters that
    are not whitespace. *)
Lemma strip_shape (s : str) :
  strip is_space s = [] \/
  ((exists h t, strip is_space s = h :: t /\ is_space h = false) /\
   (exists a c, strip is_space s = a ++ [c] /\ is_space c = false)).
Proof.
  unfold strip.
  destruct (rstrip_last (lstrip is_space s)) as [E|Hlast]; [now left|].
  right. split; [|assumption].
  destruct (rstrip_prefix is_space (lstrip is_space s)) as (q & Hq & _).
  destruct (lstrip_head s) as [E|(h & t & E & Hh)].
  - rewrite E. now destruct Hlast as (a & c & Ha & _); rewrite E in Ha;
      destruct a; discriminate.
  - rewrite E in *. destruct (rstrip is_space (h :: t)) as [|x r] eqn:Er.
    + destruct Hlast as (a & c & Ha & _). destruct a; discriminate.
    + simpl in Hq. injection Hq as <- _. now exists h, r.
Qed.

Lemma strip_fixed (s : str) :
  (exists h t, s = h :: t /\ is_space h = false) ->
  (exists a c, s = a ++ [c] /\ is_space c = false) ->
  strip is_space s = s.
Proof.
  intros (h & t & Hs & Hh) (a & c & Ha & Hc). unfold strip.
  rewrite Hs, (lstrip_fixed t Hh), <- Hs, Ha, rstrip_snoc, Hc. reflexivity.
Qed.

Lemma strip_idempotent (s : str) :
  strip is_space (strip is_space s) = strip is_space s.
Proof.
  destruct (strip_shape s) as [-> | [Hh Hl]]; [reflexivity|].
  now apply strip_fixed.
Qed.
End StripShape.

Section Renormalizing.
Variable is_alnum : char -> bool.
Variable is_space : char -> bool.
Variable is_decimal : char -> bool.

(** What the tables of the interpreter satisfy and the lemmas below use:
    the space is whitespace; a word character is not whitespace; a
    decimal digit is alphanumeric; the parentheses are neither. *)
Hypothesis space_is_space : is_space space = true.
Hypothesis word_not_space : forall c, is_word is_alnum c = true -> is_space c = false.
Hypothesis decimal_is_alnum : forall c, is_decimal c = true -> is_alnum c = true.
Hypothesis parens_are_special :
  is_word is_alnum 40%N = false /\ is_space 40%N = false /\
  is_word is_alnum 41%N = false /\ is_space 41%N = false.

Local Notation normalize := (normalize_movie_name is_alnum is_space is_decimal).
Local Notation clean := (cleaned is_alnum is_space).
Local Notation collapse := (sub_spaces is_space).
Local Notation trim := (strip is_space).
Local Notation find_year := (search_year is_decimal).
Local Notation cut_years := (sub_years is_decimal).
Local Notation wos := (word_or_space is_alnum).

Lemma decimal_not_space (c : char) : is_decimal c = true -> is_space c = false.
Proof.
  intros H. apply word_not_space. unfold is_word.
  now rewrite (decimal_is_alnum H).
Qed.

Lemma space_not_decimal : is_decimal space = false.
Proof.
  destruct (is_decimal space) eqn:E; [|reflexivity].
  apply decimal_not_space in E. congruence.
Qed.

Lemma wos_not_space (c : char) : wos c -> is_space c = false -> is_word is_alnum c = true.
Proof. intros [H | ->] Hs; [assumption|congruence]. Qed.

Lemma sub_special_fixed (s : str) :
  Forall wos s -> sub_special is_alnum is_space s = s.
Proof.
  induction 1 as [|c s Hc _ IH]; [reflexivity|].
  simpl. rewrite IH. f_equal.
  destruct Hc as [Hw | ->].
  - now rewrite Hw.
  - rewrite space_is_space. now rewrite orb_true_r.
Qed.

Lemma collapse_length (s : str) : (List.length (collapse s) <= List.length s)%nat.
Proof.
  induction s as [|c tl IH]; simpl; [lia|].
  destruct (is_space c).
  - destruct tl as [|c' tl']; [simpl; lia|].
    destruct (is_space c'); simpl in *; lia.
  - simpl. lia.
Qed.

Lemma collapse_cons_space (c : char) (tl : str) :
  is_space c = true -> exists r, collapse (c :: tl) = space :: r.
Proof.
  revert c. induction tl as [|c' tl IH]; intros c Hc.
  - simpl. rewrite Hc. now exists [].
  - change (collapse (c :: c' :: tl))
      with (if is_space c
            then if is_space c' then collapse (c' :: tl) else space :: collapse (c' :: tl)
            else c :: collapse (c' :: tl)).
    rewrite Hc. destruct (is_space c') eqn:Hc'.
    + now apply IH.
    + now eexists.
Qed.

Lemma collapse_cons_other (c : char) (tl : str) :
  is_space c = false -> collapse (c :: tl) = c :: collapse tl.
Proof. intros H. simpl. now rewrite H. Qed.

Lemma collapse_idempotent (s : str) : collapse (collapse s) = collapse s.
Proof.
  induction s as [|c tl IH]; [reflexivity|].
  destruct (is_space c) eqn:Hc.
  - destruct tl as [|c' tl'].
    + simpl. rewrite Hc. simpl. now rewrite space_is_space.
    + change (collapse (c :: c' :: tl'))
        with (if is_space c
              then if is_space c' then collapse (c' :: tl') else space :: collapse (c' :: tl')
              else c :: collapse (c' :: tl')).
      rewrite Hc. destruct (is_space c') eqn:Hc'; [assumption|].
      rewrite (collapse_cons_other _ Hc') in *.
      change (collapse (space :: c' :: collapse tl'))
        with (if is_space space
              then if is_space c' then collapse (c' :: collapse tl')
                   else space :: collapse (c' :: collapse tl')
              else space :: collapse (c' :: collapse tl')).
      rewrite space_is_space, Hc'. now rewrite IH.
  - rewrite (collapse_cons_other _ Hc), (collapse_cons_other _ Hc). now rewrite IH.
Qed.

Lemma collapse_fixed_cons (x : char) (l : str) :
  collapse (x :: l) = x :: l -> collapse l = l.
Proof.
  destruct (is_space x) eqn:Hx.
  - destruct l as [|c' l']; [reflexivity|].
    change (collapse (x :: c' :: l'))
      with (if is_space x
            then if is_space c' then collapse (c' :: l') else space :: collapse (c' :: l')
            else x :: collapse (c' :: l')).
    rewrite Hx. destruct (is_space c').
    + intros H. exfalso. pose proof (collapse_length (c' :: l')) as Hlen.
      rewrite H in Hlen. simpl in Hlen. lia.
    + now intros [= _ H].
  - rewrite (collapse_cons_other _ Hx). now intros [= H].
Qed.

Lemma collapse_fixed_suffix (p a : str) :
  collapse (p ++ a) = p ++ a -> collapse a = a.
Proof.
  induction p as [|x p IH]; [auto|].
  rewrite <- app_comm_cons. intros H. apply collapse_fixed_cons in H. auto.
Qed.

Lemma collapse_fixed_prefix (a q : str) :
  collapse (a ++ q) = a ++ q -> collapse a = a.
Proof.
  induction a as [|x a IH]; [reflexivity|].
  rewrite <- app_comm_cons. intros H.
  pose proof (collapse_fixed_cons H) as Hrest. specialize (IH Hrest).
  destruct (is_space x) eqn:Hx.
  - destruct (collapse_cons_space (a ++ q) Hx) as [r Hr].
    rewrite H in Hr. injection Hr as -> _.
    destruct a as [|c' a'].
    + simpl. now rewrite space_is_space.
    + revert H. rewrite <- app_comm_cons.
      change (collapse (space :: c' :: a' ++ q))
        with (if is_space space
              then if is_space c' then collapse (c' :: a' ++ q)
                   else space :: collapse (c' :: a' ++ q)
              else space :: collapse (c' :: a' ++ q)).
      change (collapse (space :: c' :: a'))
        with (if is_space space
              then if is_space c' then collapse (c' :: a')
                   else space :: collapse (c' :: a')
              else space :: collapse (c' :: a')).
      rewrite space_is_space. destruct (is_space c').
      * intros H. exfalso. pose proof (collapse_length (c' :: a' ++ q)) as Hlen.
        rewrite H in Hlen. simpl in Hlen. lia.
      * intros _. now rewrite IH.
  - rewrite (collapse_cons_other _ Hx). now rewrite IH.
Qed.

Lemma collapse_trim_fixed (s : str) :
  collapse s = s -> collapse (trim s) = trim s.
Proof.
  intros H. destruct (strip_infix is_space s) as (p & q & E).
  rewrite E in H. apply collapse_fixed_suffix in H.
  now apply collapse_fixed_prefix in H.
Qed.

(** Cleaning a cleaned caption changes nothing. *)
Lemma cleaned_fixed (caption : str) : clean (clean caption) = clean caption.
Proof.
  unfold cleaned at 1.
  rewrite sub_special_fixed.
  - unfold cleaned. rewrite collapse_trim_fixed by apply collapse_idempotent.
    apply strip_idempotent.
  - apply Forall_forall. intros c Hc. now apply cleaned_chars in Hc.
Qed.

(** Without a year in the caption the key is a fixed point. *)
Lemma normalize_fixed_without_year (caption : str) :
  find_year (clean caption) = None ->
  normalize (normalize caption) = normalize caption.
Proof.
  intros H. rewrite (normalize_unfold _ _ _ caption), H.
  now rewrite normalize_unfold, cleaned_fixed, H.
Qed.

(** *** Whitespace runs and digit runs across a boundary *)

Lemma collapse_app_after (a r : str) (c : char) :
  is_space c = false ->
  collapse (a ++ c :: r) = collapse (a ++ [c]) ++ collapse r.
Proof.
  intros Hc. induction a as [|x a IH].
  - simpl. now rewrite Hc.
  - destruct (is_space x) eqn:Hx.
    + destruct a as [|c' a'].
      * simpl. rewrite Hx, Hc. reflexivity.
      * rewrite <- !app_comm_cons in *.
        change (collapse (x :: c' :: a' ++ c :: r))
          with (if is_space x
                then if is_space c' then collapse (c' :: a' ++ c :: r)
                     else space :: collapse (c' :: a' ++ c :: r)
                else x :: collapse (c' :: a' ++ c :: r)).
        change (collapse (x :: c' :: a' ++ [c]))
          with (if is_space x
                then if is_space c' then collapse (c' :: a' ++ [c])
                     else space :: collapse (c' :: a' ++ [c])
                else x :: collapse (c' :: a' ++ [c])).
        rewrite Hx, IH. now destruct (is_space c').
    + rewrite <- !app_comm_cons, !(collapse_cons_other _ Hx), IH. reflexivity.
Qed.

Lemma collapse_snoc_last (a : str) (c : char) :
  is_space c = false -> exists X, collapse (a ++ [c]) = X ++ [c].
Proof.
  intros Hc. induction a as [|x a (X & IH)].
  - exists []. simpl. now rewrite Hc.
  - destruct (is_space x) eqn:Hx.
    + destruct a as [|c' a'].
      * exists [space]. simpl. now rewrite Hx, Hc.
      * rewrite <- !app_comm_cons in *.
        change (collapse (x :: c' :: a' ++ [c]))
          with (if is_space x
                then if is_space c' then collapse (c' :: a' ++ [c])
                     else space :: collapse (c' :: a' ++ [c])
                else x :: collapse (c' :: a' ++ [c])).
        rewrite Hx, IH. destruct (is_space c'); [now exists X|now exists (space :: X)].
    + rewrite <- app_comm_cons, (collapse_cons_other _ Hx), IH. now exists (x :: X).
Qed.

Lemma collapse_digit_head (s r : str) (d : char) :
  is_decimal d = true -> collapse s = d :: r ->
  exists s', s = d :: s' /\ r = collapse s'.
Proof.
  intros Hd H. destruct s as [|x s']; [discriminate|].
  destruct (is_space x) eqn:Hx.
  - destruct (collapse_cons_space s' Hx) as [r' Hr]. rewrite Hr in H.
    injection H as <- _. rewrite space_not_decimal in Hd. discriminate.
  - rewrite (collapse_cons_other _ Hx) in H. injection H as -> <-. now exists s'.
Qed.

Lemma year_at_cons_other (c : char) (r : str) :
  is_decimal c = false -> year_at is_decimal (c :: r) = None.
Proof.
  intros Hc. destruct r as [|x [|y [|z r']]]; try reflexivity.
  simpl. now rewrite Hc.
Qed.

(** Collapsing whitespace brings no four digits together. *)
Lemma find_year_collapse (s : str) :
  find_year s = None -> find_year (collapse s) = None.
Proof.
  induction s as [|c tl IH]; [reflexivity|].
  intros H. apply search_year_none_cons in H as [Hy Htl]. specialize (IH Htl).
  destruct (is_space c) eqn:Hc.
  - destruct tl as [|c' tl'].
    + simpl. rewrite Hc. reflexivity.
    + change (collapse (c :: c' :: tl'))
        with (if is_space c
              then if is_space c' then collapse (c' :: tl') else space :: collapse (c' :: tl')
              else c :: collapse (c' :: tl')).
      rewrite Hc. destruct (is_space c'); [assumption|].
      apply search_year_none_cons. split; [|assumption].
      apply year_at_cons_other, space_not_decimal.
  - rewrite (collapse_cons_other _ Hc). apply search_year_none_cons. split; [|assumption].
    destruct (year_at is_decimal (c :: collapse tl)) eqn:E; [exfalso|reflexivity].
    destruct (collapse tl) as [|d1 [|d2 [|d3 r]]] eqn:Ec; try discriminate.
    assert (Hsome : year_at is_decimal (c :: d1 :: d2 :: d3 :: r) <> None) by congruence.
    apply year_at_is_some in Hsome as (H0 & H1 & H2 & H3).
    destruct (collapse_digit_head _ H1 Ec) as (s1 & -> & E1).
    symmetry in E1. destruct (collapse_digit_head _ H2 E1) as (s2 & -> & E2).
    symmetry in E2. destruct (collapse_digit_head _ H3 E2) as (s3 & -> & _).
    simpl in Hy. rewrite H0, H1, H2, H3 in Hy. discriminate.
Qed.

Lemma year_at_before (a r : str) (c : char) :
  is_decimal c = false ->
  year_at is_decimal (a ++ c :: r) = year_at is_decimal a.
Proof.
  intros Hc. destruct a as [|x [|y [|z [|u a']]]]; try reflexivity.
  - simpl. now apply year_at_cons_other.
  - simpl. destruct r as [|p [|q r']]; try reflexivity.
    simpl. rewrite Hc. now rewrite andb_false_r.
  - simpl. destruct r as [|p r']; try reflexivity.
    simpl. rewrite Hc. now rewrite andb_false_r.
  - simpl. rewrite Hc. now rewrite andb_false_r.
Qed.

Lemma find_year_across (a r : str) (c : char) :
  is_decimal c = false ->
  find_year (a ++ c :: r) =
  match find_year a with Some y => Some y | None => find_year r end.
Proof.
  intros Hc. induction a as [|x a IH].
  - change (find_year ([] ++ c :: r))
      with (match year_at is_decimal (c :: r) with
            | Some y => Some y | None => find_year r end).
    now rewrite (year_at_cons_other _ Hc).
  - rewrite <- app_comm_cons.
    change (find_year (x :: a ++ c :: r))
      with (match year_at is_decimal (x :: a ++ c :: r) with
            | Some y => Some y | None => find_year (a ++ c :: r) end).
    change (find_year (x :: a))
      with (match year_at is_decimal (x :: a) with
            | Some y => Some y | None => find_year a end).
    rewrite app_comm_cons, (year_at_before _ _ Hc), IH.
    now destruct (year_at is_decimal (x :: a)).
Qed.

Lemma cut_years_fixed (s : str) : find_year s = None -> cut_years s = s.
Proof.
  induction s as [|c tl IH]; [reflexivity|].
  intros H. apply search_year_none_cons in H as [Hy Htl].
  rewrite sub_years_eq, Hy. now rewrite IH.
Qed.

Lemma cut_years_across (a r : str) (c : char) :
  is_decimal c = false ->
  cut_years (a ++ c :: r) = cut_years a ++ c :: cut_years r.
Proof.
  intros Hc. remember (List.length a) as n eqn:Hn.
  revert a Hn. induction n as [n IH] using lt_wf_ind. intros a Hn.
  destruct a as [|x a].
  - cbn [app]. now rewrite sub_years_eq, (year_at_cons_other _ Hc).
  - rewrite <- app_comm_cons, !sub_years_eq.
    rewrite app_comm_cons, (year_at_before _ _ Hc).
    destruct (year_at is_decimal (x :: a)) eqn:E.
    + destruct a as [|y [|z [|u a']]]; try discriminate.
      cbn [skipn app].
      apply (IH (List.length a')); [subst; simpl; lia|reflexivity].
    + rewrite (IH (List.length a)); [reflexivity|subst; simpl; lia|reflexivity].
Qed.

(** *** The key of a key *)

Lemma sub_special_key (body y : str) :
  Forall wos body -> forallb is_decimal y = true ->
  sub_special is_alnum is_space (body ++ py " (" ++ y ++ py ")")
  = body ++ [space; space] ++ y ++ [space].
Proof.
  intros Hb Hy. destruct parens_are_special as (Hlw & Hls & Hrw & Hrs).
  unfold sub_special. rewrite !map_app.
  fold (sub_special is_alnum is_space body). rewrite (sub_special_fixed Hb).
  f_equal. f_equal.
  - change (py " (") with [space; 40%N]. cbn [map].
    rewrite space_is_space, orb_true_r, Hlw, Hls. reflexivity.
  - f_equal.
    + rewrite <- (map_id y) at 2. apply map_ext_in. intros c Hc.
      rewrite forallb_forall in Hy. specialize (Hy c Hc).
      unfold is_word. now rewrite (decimal_is_alnum Hy).
    + change (py ")") with [41%N]. cbn [map]. now rewrite Hrw, Hrs.
Qed.

Lemma four_digits (y : str) :
  List.length y = 4%nat -> forallb is_decimal y = true ->
  exists d1 d2 d3 d4,
    y = [d1; d2; d3; d4] /\ is_decimal d1 = true /\ is_decimal d2 = true /\
    is_decimal d3 = true /\ is_decimal d4 = true.
Proof.
  intros Hl Hd. destruct y as [|d1 [|d2 [|d3 [|d4 [|x r]]]]]; try discriminate.
  simpl in Hd. repeat (apply andb_prop in Hd as [? Hd]).
  exists d1, d2, d3, d4. auto.
Qed.

Lemma collapse_year_tail (y : str) :
  List.length y = 4%nat -> forallb is_decimal y = true ->
  collapse ([space; space] ++ y ++ [space]) = space :: y ++ [space].
Proof.
  intros Hl Hd. destruct (four_digits y Hl Hd) as (d1 & d2 & d3 & d4 & -> & H1 & H2 & H3 & H4).
  apply decimal_not_space in H1, H2, H3, H4.
  simpl. now rewrite space_is_space, H1, H2, H3, H4.
Qed.

Lemma find_year_exact (y : str) :
  List.length y = 4%nat -> forallb is_decimal y = true ->
  find_year y = Some y /\ cut_years y = [].
Proof.
  intros Hl Hd. destruct (four_digits y Hl Hd) as (d1 & d2 & d3 & d4 & -> & H1 & H2 & H3 & H4).
  simpl. now rewrite H1, H2, H3, H4.
Qed.

Lemma trim_year_tail (B y : str) :
  List.length y = 4%nat -> forallb is_decimal y = true ->
  (exists h t, B = h :: t /\ is_space h = false) ->
  trim (B ++ space :: y ++ [space]) = B ++ space :: y.
Proof.
  intros Hl Hd (h & t & -> & Hh).
  destruct (four_digits y Hl Hd) as (d1 & d2 & d3 & d4 & -> & _ & _ & _ & H4).
  apply decimal_not_space in H4.
  unfold strip. rewrite <- app_comm_cons, (@lstrip_fixed is_space h _ Hh).
  replace (h :: t ++ space :: [d1; d2; d3; d4] ++ [space])
    with (((h :: t ++ [space; d1; d2; d3]) ++ [d4]) ++ [space])
    by (cbn [app]; now rewrite <- !app_assoc).
  rewrite rstrip_snoc, space_is_space, rstrip_snoc, H4.
  cbn [app]. now rewrite <- !app_assoc.
Qed.

(** Normalizing a key with a year gives the body with its whitespace
    collapsed, and the same year. *)
Lemma normalize_key (body y : str) :
  Forall wos body -> trim body = body -> find_year body = None ->
  List.length y = 4%nat -> forallb is_decimal y = true ->
  normalize (body ++ py " (" ++ y ++ py ")") = collapse body ++ py " (" ++ y ++ py ")".
Proof.
  intros Hchars Htrim Hnone Hl Hd.
  destruct (find_year_exact y Hl Hd) as [Hfind Hcut].
  rewrite normalize_unfold. unfold cleaned. rewrite (sub_special_key y Hchars Hd).
  destruct (strip_shape is_space body) as [E | [Hhead Hlast]]; rewrite Htrim in *.
  - subst body. cbn [app]. change (space :: space :: y ++ [space])
      with ([space; space] ++ y ++ [space]).
    rewrite (collapse_year_tail y Hl Hd).
    assert (Ht : trim (space :: y ++ [space]) = y).
    { destruct (four_digits y Hl Hd) as (d1 & d2 & d3 & d4 & -> & H1 & _ & _ & H4).
      apply decimal_not_space in H1, H4.
      unfold strip. simpl lstrip. rewrite space_is_space, H1.
      change [d1; d2; d3; d4; space] with (([d1; d2; d3] ++ [d4]) ++ [space]).
      now rewrite rstrip_snoc, space_is_space, rstrip_snoc, H4. }
    rewrite Ht, Hfind, Hcut. reflexivity.
  - destruct Hlast as (a & c & Ea & Hc).
    assert (HB : collapse (body ++ [space; space] ++ y ++ [space])
                 = collapse body ++ space :: y ++ [space]).
    { rewrite Ea, <- app_assoc. cbn [app].
      change (c :: space :: space :: y ++ [space])
        with (c :: [space; space] ++ y ++ [space]).
      now rewrite (collapse_app_after _ _ Hc), (collapse_year_tail y Hl Hd). }
    rewrite HB.
    assert (HBhead : exists h t, collapse body = h :: t /\ is_space h = false).
    { destruct Hhead as (h & t & -> & Hh). rewrite (collapse_cons_other _ Hh). eauto. }
    assert (HBlast : exists X, collapse body = X ++ [c]).
    { rewrite Ea. now apply collapse_snoc_last. }
    rewrite (@trim_year_tail (collapse body) y Hl Hd HBhead).
    rewrite (find_year_across _ _ space_not_decimal), (find_year_collapse _ Hnone), Hfind.
    rewrite (cut_years_across _ _ space_not_decimal), Hcut.
    rewrite (cut_years_fixed _ (find_year_collapse _ Hnone)).
    assert (Ht : trim (collapse body ++ [space]) = collapse body).
    { destruct HBhead as (h & t & Eh & Hh). destruct HBlast as (X & EX).
      unfold strip. rewrite Eh at 1. rewrite <- app_comm_cons, (@lstrip_fixed is_space h _ Hh).
      rewrite app_comm_cons, <- Eh, rstrip_snoc, space_is_space.
      now rewrite EX, rstrip_snoc, Hc. }
    now rewrite Ht.
Qed.

Lemma body_is_tidy (caption : str) :
  Forall wos (trim (cut_years (clean caption))) /\
  trim (trim (cut_years (clean caption))) = trim (cut_years (clean caption)) /\
  find_year (trim (cut_years (clean caption))) = None.
Proof.
  repeat split.
  - apply Forall_forall. intros c Hc.
    apply strip_incl, sub_years_incl in Hc. now apply cleaned_chars in Hc.
  - apply strip_idempotent.
  - apply search_year_strip, sub_years_no_year.
Qed.

(** The key of the key: the same year, and the body with the runs of
    spaces that cutting the years left in it collapsed. *)
Lemma normalize_twice (caption y : str) :
  find_year (clean caption) = Some y ->
  normalize (normalize caption)
  = collapse (trim (cut_years (clean caption))) ++ py " (" ++ y ++ py ")".
Proof.
  intros H. rewrite (normalize_unfold _ _ _ caption), H.
  destruct (search_year_leftmost _ _ H) as (_ & _ & _ & Hl & Hd & _).
  destruct (body_is_tidy caption) as (Hc & Ht & Hn).
  now apply normalize_key.
Qed.

(** A key in which collapsing whitespace changes nothing is a fixed
    point of the canonicalizer. *)
Lemma normalize_fixed_when_collapsed (caption : str) :
  collapse (normalize caption) = normalize caption ->
  normalize (normalize caption) = normalize caption.
Proof.
  destruct (find_year (clean caption)) as [y|] eqn:E.
  - rewrite (normalize_twice _ E), normalize_unfold, E. intros H.
    apply collapse_fixed_prefix in H. now rewrite H.
  - intros _. now apply normalize_fixed_without_year.
Qed.

(** From the second application on, the key no longer changes. *)
Lemma normalize_settles (caption : str) :
  normalize (normalize (normalize caption)) = normalize (normalize caption).
Proof.
  destruct (find_year (clean caption)) as [y|] eqn:E.
  - rewrite (normalize_twice _ E).
    destruct (search_year_leftmost _ _ E) as (_ & _ & _ & Hl & Hd & _).
    destruct (body_is_tidy caption) as (Hc & Ht & Hn).
    rewrite normalize_key; auto.
    + now rewrite collapse_idempotent.
    + apply Forall_forall. intros c Hin.
      destruct (@sub_spaces_chars is_space _ c Hin) as [-> | [Hin' _]]; [now right|].
      rewrite Forall_forall in Hc. now apply Hc.
    + destruct (strip_shape is_space (trim (cut_years (clean caption))))
        as [E0 | [Hhead Hlast]]; rewrite Ht in *.
      * rewrite E0. reflexivity.
      * apply strip_fixed.
        -- destruct Hhead as (h & t & -> & Hh). rewrite (collapse_cons_other _ Hh). eauto.
        -- destruct Hlast as (a & c & -> & Hc'). 
           destruct (collapse_snoc_last a Hc') as (X & ->). eauto.
    + now apply find_year_collapse.
  - now rewrite !(normalize_fixed_without_year _ E).
Qed.

End Renormalizing.

(** The Basic Latin tables satisfy what was assumed of the tables. *)
Lemma latin_word_not_space (c : char) :
  is_word Latin.is_alnum c = true -> Latin.is_space c = false.
Proof.
  unfold is_word, Latin.is_alnum, Latin.is_space, Latin.between, char_eqb, underscore.
  intros H.
  destruct (N.leb_spec 9 c), (N.leb_spec c 13), (N.leb_spec 28 c), (N.leb_spec c 32);
    simpl; try reflexivity; exfalso;
    destruct (N.leb_spec 48 c), (N.leb_spec c 57), (N.leb_spec 65 c), (N.leb_spec c 90),
             (N.leb_spec 97 c), (N.leb_spec c 122), (N.eqb_spec c 95);
    simpl in H; try discriminate; lia.
Qed.

Lemma latin_decimal_is_alnum (c : char) :
  Latin.is_decimal c = true -> Latin.is_alnum c = true.
Proof. unfold Latin.is_decimal, Latin.is_alnum. now intros ->. Qed.

Example renormalizing_a_collapsed_key :
  normalize_latin (normalize_latin (py "Heat, HD (1995)"))
  = normalize_latin (py "Heat, HD (1995)").
Proof.
  apply (@normalize_fixed_when_collapsed Latin.is_alnum Latin.is_space Latin.is_decimal).
  - reflexivity.
  - exact latin_word_not_space.
  - exact latin_decimal_is_alnum.
  - repeat split.
  - reflexivity.
Qed.

(** ** The catalog store *)

(** Unfolds the monad and the storage primitives, leaving the pure
    functions ([insert_each], [fold_left], ...) folded. *)
Ltac run_storage :=
  cbv beta iota zeta delta
    [insert_movies try_except bind connect with_conn executemany commit rollback
     set_txn set_movies set_cursor_file emit get_world ret raise logging
     txn movies cursor_file trace fst snd].

Lemma has_name_in (name : str) (tbl : list row) :
  has_name name tbl = true <-> In name (names tbl).
Proof.
  unfold has_name, names. rewrite existsb_exists, in_map_iff. split.
  - intros (r & Hr & E). apply eqb_eq in E. now exists r.
  - intros (r & E & Hr). exists r. split; [assumption|]. now apply eqb_eq.
Qed.

Lemma has_name_app (name : str) (a b : list row) :
  has_name name (a ++ b) = has_name name a || has_name name b.
Proof. unfold has_name. now rewrite existsb_app. Qed.

Lemma insert_or_ignore_cases (tbl : list row) (m : movie) :
  (has_name (movie_name m) tbl = true /\ insert_or_ignore tbl m = tbl) \/
  (has_name (movie_name m) tbl = false /\
   insert_or_ignore tbl m =
   tbl ++ [mkRow (next_id tbl) (movie_name m) (movie_details m) (movie_file m)]).
Proof.
  unfold insert_or_ignore. destruct (has_name (movie_name m) tbl); auto.
Qed.

Lemma insert_or_ignore_has (tbl : list row) (m : movie) :
  has_name (movie_name m) (insert_or_ignore tbl m) = true.
Proof.
  destruct (insert_or_ignore_cases tbl m) as [[H ->]|[H ->]]; [assumption|].
  rewrite has_name_app. simpl. rewrite eqb_refl. now rewrite orb_true_r.
Qed.

Lemma insert_or_ignore_nodup (tbl : list row) (m : movie) :
  NoDup (names tbl) -> NoDup (names (insert_or_ignore tbl m)).
Proof.
  intros Hnd. destruct (insert_or_ignore_cases tbl m) as [[H ->]|[H ->]]; [assumption|].
  unfold names. rewrite map_app. simpl.
  rewrite <- (rev_involutive (map _ tbl ++ _)).
  apply NoDup_rev. rewrite rev_app_distr. simpl. constructor.
  - rewrite <- in_rev. intros Hin. apply has_name_in in Hin. congruence.
  - now apply NoDup_rev.
Qed.

(** What a batch adds to a table: the rows of the tuples whose name the
    table, grown so far, does not hold. *)
Lemma fold_insert_spec (batch : list movie) (tbl : list row) :
  exists added,
    fold_left insert_or_ignore batch tbl = tbl ++ added /\
    (forall r, In r added ->
       has_name (normalized_name r) tbl = false /\
       In (normalized_name r, details r, file_id r) batch) /\
    (forall m, In m batch -> has_name (movie_name m) (tbl ++ added) = true) /\
    (forall pre m post,
       batch = pre ++ m :: post ->
       has_name (movie_name m) tbl = false ->
       ~ In (movie_name m) (map movie_name pre) ->
       exists i, In (mkRow i (movie_name m) (movie_details m) (movie_file m)) added).
Proof.
  revert tbl. induction batch as [|m batch IH]; intros tbl; simpl.
  - exists []. rewrite app_nil_r. repeat split; try (intros; contradiction).
    intros [|] ? ? E; discriminate.
  - destruct (IH (insert_or_ignore tbl m)) as (added & Hfold & Hrows & Hhas & Hfirst).
    destruct (insert_or_ignore_cases tbl m) as [[Hm E]|[Hm E]]; rewrite E in *.
    + exists added. repeat split.
      * assumption.
      * now apply Hrows.
      * right. now apply Hrows.
      * intros m' [<-|Hin]; [|now apply Hhas].
        rewrite has_name_app, Hm. reflexivity.
      * intros pre m' post Eb Hn Hpre. destruct pre as [|p pre]; simpl in Eb.
        -- injection Eb as <- _. congruence.
        -- injection Eb as <- ->. apply (Hfirst pre m' post); auto.
           intros Hin. apply Hpre. now right.
    + set (r0 := mkRow (next_id tbl) (movie_name m) (movie_details m) (movie_file m)) in *.
      exists (r0 :: added). repeat split.
      * rewrite Hfold, <- app_assoc. reflexivity.
      * destruct H as [<-|Hin]; [assumption|].
        destruct (Hrows r Hin) as [Hr _]. rewrite has_name_app in Hr.
        now apply orb_false_elim in Hr.
      * destruct H as [<-|Hin].
        -- left. simpl. now destruct m as [[? ?] ?].
        -- right. now apply Hrows.
      * intros m' Hin.
        replace (tbl ++ r0 :: added) with ((tbl ++ [r0]) ++ added)
          by (now rewrite <- app_assoc).
        destruct Hin as [<-|Hin]; [|now apply Hhas].
        rewrite !has_name_app. simpl. rewrite eqb_refl. simpl.
        now rewrite orb_true_r.
      * intros pre m' post Eb Hn Hpre. destruct pre as [|p pre]; simpl in Eb.
        -- injection Eb as <- _. exists (next_id tbl). now left.
        -- injection Eb as <- ->.
           destruct (Hfirst pre m' post) as [i Hi]; auto.
           ++ rewrite has_name_app, Hn. simpl.
              destruct (PyStr.eqb (movie_name m) (movie_name m')) eqn:Eq; [|reflexivity].
              apply eqb_eq in Eq. exfalso. apply Hpre. now left.
           ++ intros Hin. apply Hpre. now right.
           ++ exists i. now right.
Qed.

Lemma fold_insert_nodup (batch : list movie) (tbl : list row) :
  NoDup (names tbl) -> NoDup (names (fold_left insert_or_ignore batch tbl)).
Proof.
  revert tbl. induction batch as [|m batch IH]; intros tbl H; simpl; [assumption|].
  apply IH. now apply insert_or_ignore_nodup.
Qed.

Lemma rows_named_length (name : str) (tbl : list row) :
  NoDup (names tbl) -> has_name name tbl = true ->
  List.length (rows_named name tbl) = 1%nat.
Proof.
  induction tbl as [|r tbl IH]; simpl; [discriminate|].
  intros Hnd Hh. inversion Hnd as [|x l Hnot Hnd']; subst.
  unfold rows_named in *. simpl.
  destruct (PyStr.eqb (normalized_name r) name) eqn:E.
  - simpl. f_equal. apply eqb_eq in E. subst.
    destruct (filter _ tbl) as [|r' l'] eqn:F; [reflexivity|].
    exfalso. assert (Hin : In r' (filter (fun r0 => PyStr.eqb (normalized_name r0)
                                                      (normalized_name r)) tbl))
      by (rewrite F; now left).
    apply filter_In in Hin as [Hin Hr']. apply eqb_eq in Hr'.
    apply Hnot. unfold names. rewrite <- Hr'. now apply in_map.
  - simpl in Hh. apply IH; assumption.
Qed.

Lemma insert_each_none (ms : list movie) (tbl : list row) :
  insert_each None tbl ms = (Ok tt, fold_left insert_or_ignore ms tbl).
Proof.
  revert tbl. induction ms as [|m ms IH]; intros tbl; simpl; [reflexivity|apply IH].
Qed.

Lemma insert_each_some (k : nat) (ms : list movie) (tbl : list row) :
  insert_each (Some k) tbl ms =
  if (k <? List.length ms)%nat
  then (Raise SqliteError, fold_left insert_or_ignore (firstn k ms) tbl)
  else (Ok tt, fold_left insert_or_ignore ms tbl).
Proof.
  revert k tbl. induction ms as [|m ms IH]; intros k tbl.
  - simpl. destruct k; reflexivity.
  - destruct k as [|k]; [reflexivity|].
    simpl insert_each. rewrite IH. reflexivity.
Qed.

(** Without a storage fault [insert_movies] commits the whole batch. *)
Lemma insert_movies_commits (batch : list movie) (w : world) :
  insert_movies NoFault batch w =
  (Ok tt, mkWorld (cursor_file w) (fold_left insert_or_ignore batch (movies w)) None
                  (trace w ++ [ExecuteMany batch])).
Proof.
  destruct batch as [|m batch]; [reflexivity|].
  run_storage. rewrite insert_each_none. reflexivity.
Qed.

(** With a storage fault that strikes, [insert_movies] logs the error,
    returns normally and leaves the committed table as it was. *)
Lemma insert_movies_rolls_back (fault : storage_fault) (batch : list movie) (w : world) :
  fault_strikes fault batch = true ->
  exists t evs,
    insert_movies fault batch w =
    (Ok tt, mkWorld (cursor_file w) (movies w) t
                    (trace w ++ evs ++ [Log ERROR DbBatchError])) /\
    (evs = [] \/ evs = [ExecuteMany batch]).
Proof.
  intros Hs. destruct fault as [| |k|]; simpl in Hs; try discriminate.
  - exists (txn w), []. split; [reflexivity|now left].
  - destruct batch as [|m batch]; [simpl in Hs; discriminate|].
    exists None, [ExecuteMany (m :: batch)]. split; [|now right].
    run_storage. rewrite insert_each_some, Hs.
    run_storage. now rewrite <- app_assoc.
  - destruct batch as [|m batch]; [discriminate|].
    exists None, [ExecuteMany (m :: batch)]. split; [|now right].
    run_storage. rewrite insert_each_none.
    run_storage. now rewrite <- app_assoc.
Qed.

(** C4: [insert_movies] keeps the names of the table unique.  It returns
    normally and logs nothing; the rows that were there stay as they
    were, in place; a row is added only for a tuple whose name the table
    did not hold; the first tuple of the batch under a new name is
    stored with its own details and file; and afterwards every name of
    the batch has exactly one row, also when a tuple occurs twice. *)
Theorem insert_movies_first_write_wins (batch : list movie) (w : world) :
  NoDup (names (movies w)) ->
  exists added,
    insert_movies NoFault batch w =
    (Ok tt, mkWorld (cursor_file w) (movies w ++ added) None
                    (trace w ++ [ExecuteMany batch])) /\
    NoDup (names (movies w ++ added)) /\
    (forall r, In r added ->
       has_name (normalized_name r) (movies w) = false /\
       In (normalized_name r, details r, file_id r) batch) /\
    (forall pre m post,
       batch = pre ++ m :: post ->
       has_name (movie_name m) (movies w) = false ->
       ~ In (movie_name m) (map movie_name pre) ->
       exists i, In (mkRow i (movie_name m) (movie_details m) (movie_file m)) added) /\
    (forall m, In m batch ->
       List.length (rows_named (movie_name m) (movies w ++ added)) = 1%nat).
Proof.
  intros Hnd.
  destruct (fold_insert_spec batch (movies w)) as (added & Hfold & Hrows & Hhas & Hfirst).
  assert (Hnd' : NoDup (names (movies w ++ added))).
  { rewrite <- Hfold. now apply fold_insert_nodup. }
  exists added. repeat split.
  - rewrite insert_movies_commits, Hfold. reflexivity.
  - assumption.
  - now apply Hrows.
  - now apply Hrows.
  - assumption.
  - intros m Hm. apply rows_named_length; auto.
Qed.

Lemma insert_movies_first_write_wins_witness :
  let old := mkRow 1 (py "Heat (1995)") (py "first") (py "f1") in
  let batch := [(py "Heat (1995)", py "second", py "f2");
                (py "Ran (1985)", py "third", py "f3");
                (py "Ran (1985)", py "third", py "f3")] in
  let w := mkWorld None [old] None [] in
  exists added,
    insert_movies NoFault batch w =
    (Ok tt, mkWorld (cursor_file w) (movies w ++ added) None
                    (trace w ++ [ExecuteMany batch])) /\
    NoDup (names (movies w ++ added)) /\
    (forall r, In r added ->
       has_name (normalized_name r) (movies w) = false /\
       In (normalized_name r, details r, file_id r) batch) /\
    (forall pre m post,
       batch = pre ++ m :: post ->
       has_name (movie_name m) (movies w) = false ->
       ~ In (movie_name m) (map movie_name pre) ->
       exists i, In (mkRow i (movie_name m) (movie_details m) (movie_file m)) added) /\
    (forall m, In m batch ->
       List.length (rows_named (movie_name m) (movies w ++ added)) = 1%nat).
Proof.
  intros old batch w. apply (insert_movies_first_write_wins batch w).
  simpl. constructor; [intros []|constructor].
Defined.

Example insert_movies_collision :
  let old := mkRow 1 (py "Heat (1995)") (py "first") (py "f1") in
  let batch := [(py "Heat (1995)", py "second", py "f2");
                (py "Ran (1985)", py "third", py "f3");
                (py "Ran (1985)", py "third", py "f3")] in
  movies (snd (insert_movies NoFault batch (mkWorld None [old] None [])))
  = [old; mkRow 2 (py "Ran (1985)") (py "third") (py "f3")].
Proof. reflexivity. Qed.

(** C5, as the program has it: when the storage raises during the call,
    at the connection, at a tuple of the batch or at the commit,
    [insert_movies] logs the error and returns normally, and the
    committed table is what it was before the call: the transaction is
    rolled back, tuples inserted before the failure included. *)
Theorem insert_movies_storage_error (fault : storage_fault) (batch : list movie) (w : world) :
  fault_strikes fault batch = true ->
  exists w',
    insert_movies fault batch w = (Ok tt, w') /\
    movies w' = movies w /\
    cursor_file w' = cursor_file w /\
    exists evs, trace w' = trace w ++ evs ++ [Log ERROR DbBatchError].
Proof.
  intros Hs. destruct (insert_movies_rolls_back fault batch w Hs) as (t & evs & E & _).
  eexists. split; [exact E|]. simpl. repeat split. now exists evs.
Qed.

Lemma insert_movies_storage_error_witness :
  let batch := [(py "Heat (1995)", py "first", py "f1");
                (py "Ran (1985)", py "second", py "f2")] in
  let w := mkWorld None [] None [] in
  exists w',
    insert_movies (StatementFails 1) batch w = (Ok tt, w') /\
    movies w' = movies w /\
    cursor_file w' = cursor_file w /\
    exists evs, trace w' = trace w ++ evs ++ [Log ERROR DbBatchError].
Proof.
  intros batch w. apply (insert_movies_storage_error (StatementFails 1) batch w).
  reflexivity.
Defined.

(** C5 fails as worded: the storage raising at the second tuple of a
    batch, the first tuple is not in the table afterwards, where a
    commit of what succeeded before the failure would have left it. *)
Lemma failed_batch_leaves_nothing :
  let first := (py "Heat (1995)", py "first", py "f1") in
  let batch := [first; (py "Ran (1985)", py "second", py "f2")] in
  let w := mkWorld None [] None [] in
  let w' := snd (insert_movies (StatementFails 1) batch w) in
  fst (insert_movies (StatementFails 1) batch w) = Ok tt /\
  movies w' = [] /\
  partial_commit (movies w) batch 1 = [mkRow 1 (py "Heat (1995)") (py "first") (py "f1")] /\
  movies w' <> partial_commit (movies w) batch 1.
Proof. repeat split; try reflexivity. discriminate. Qed.

(** ** The metadata resolver *)

Lemma http_gets_app (a b : list event) : http_gets (a ++ b) = (http_gets a + http_gets b)%nat.
Proof. unfold http_gets. now rewrite filter_app, length_app. Qed.

Lemma http_gets_get (url : str) (evs : list event) :
  http_gets (HttpGet url :: evs) = S (http_gets evs).
Proof. reflexivity. Qed.

Lemma after_after (w : world) (a b : list event) : after (after w a) b = after w (a ++ b).
Proof. unfold after. simpl. now rewrite app_assoc. Qed.

Lemma after_nil (w : world) : after w [] = w.
Proof. unfold after. rewrite app_nil_r. now destruct w. Qed.

Lemma answer_log_no_get (x : exchange) : http_gets (answer_log x) = 0%nat.
Proof.
  destruct x as [why|st data|st b|st]; simpl; try reflexivity.
  destruct (is_error_status st); [reflexivity|].
  destruct (response_is_true data); reflexivity.
Qed.

Lemma answer_truthy (x : exchange) : truthy (answer x) = true.
Proof.
  destruct x as [why|st data|st b|st]; simpl; try reflexivity.
  destruct (is_error_status st); [reflexivity|].
  destruct (response_is_true data); reflexivity.
Qed.

Lemma well_formed_returns (x : exchange) : well_formed x = true -> escapes x = None.
Proof. destruct x; simpl; congruence. Qed.

Lemma is_error_status_iff (status_code : Z) :
  is_error_status status_code = true <-> (400 <= status_code < 600)%Z.
Proof. unfold is_error_status. rewrite andb_true_iff, Z.leb_le, Z.ltb_lt. tauto. Qed.

Lemma response_is_true_iff (data : json_object) :
  response_is_true data = true <-> dict_get data (py "Response") = Some (JStr (py "True")).
Proof.
  unfold response_is_true.
  destruct (dict_get data (py "Response")) as [[s|r]|].
  - rewrite eqb_eq. split; congruence.
  - split; discriminate.
  - split; discriminate.
Qed.

(** One lookup: the request is sent, and the exchange decides whether
    the lookup returns, and with which text. *)
Lemma fetch_run (key : str) (service : nat -> str -> exchange) (name : str) (w : world) :
  fetch_movie_details_from_omdb key service name w =
  match escapes (service (http_gets (trace w)) (omdb_url key name)) with
  | Some e => (Raise e, after w [HttpGet (omdb_url key name)])
  | None =>
      (Ok (answer (service (http_gets (trace w)) (omdb_url key name))),
       after w (HttpGet (omdb_url key name)
                :: answer_log (service (http_gets (trace w)) (omdb_url key name))))
  end.
Proof.
  unfold fetch_movie_details_from_omdb. fold (omdb_url key name).
  destruct w as [cf mv tx tr]. cbn [trace].
  destruct (service (http_gets tr) (omdb_url key name)) as [why|st data|st b|st] eqn:Ex;
    cbv beta iota zeta delta
      [try_except bind requests_get raise_for_status response_json data_get
       emit get_world ret raise logging txn movies cursor_file trace fst snd];
    rewrite Ex;
    cbn [escapes answer answer_log after trace cursor_file movies txn fst snd].
  - now rewrite <- app_assoc.
  - fold (is_error_status st). destruct (is_error_status st).
    + now rewrite <- app_assoc.
    + destruct (response_is_true data); [reflexivity|now rewrite <- app_assoc].
  - fold (is_error_status st). destruct (is_error_status st); cbn [orb].
    + now rewrite <- app_assoc.
    + destruct b; [now rewrite <- app_assoc|reflexivity].
  - fold (is_error_status st). destruct (is_error_status st).
    + now rewrite <- app_assoc.
    + reflexivity.
Qed.

(** ** The cursor store *)

Section CursorFacts.
Variable is_space : char -> bool.
Variable int : str -> option Z.

Lemma get_last_update_id_run (w : world) :
  get_last_update_id is_space int w =
  match cursor_file w with
  | Some content =>
      match int (strip is_space content) with
      | Some n => (Ok (Some n), w)
      | None => (Ok None, after w [Log ERROR CursorUnreadable])
      end
  | None => (Ok None, w)
  end.
Proof.
  destruct w as [cf mv tx tr]. unfold get_last_update_id.
  cbv beta iota zeta delta
    [try_except bind emit get_world ret raise logging after
     txn movies cursor_file trace fst snd].
  destruct cf as [content|]; [|reflexivity].
  destruct (int (strip is_space content)); reflexivity.
Qed.

Lemma get_last_update_id_cases (w : world) :
  exists off pre,
    get_last_update_id is_space int w = (Ok off, after w pre) /\
    (pre = [] \/ pre = [Log ERROR CursorUnreadable]).
Proof.
  rewrite get_last_update_id_run.
  destruct (cursor_file w) as [content|].
  - destruct (int (strip is_space content)) as [n|].
    + exists (Some n), []. rewrite after_nil. auto.
    + exists None, [Log ERROR CursorUnreadable]. auto.
  - exists None, []. rewrite after_nil. auto.
Qed.
End CursorFacts.

Lemma save_last_update_id_run (n : Z) (w : world) :
  save_last_update_id n w =
  (Ok tt, mkWorld (Some (str_of_int n)) (movies w) (txn w)
                  (trace w ++ [CursorWrite (str_of_int n)])).
Proof. destruct w. reflexivity. Qed.

(** ** What a run leaves behind *)

Lemma cursor_writes_app (a b : list event) :
  cursor_writes (a ++ b) = cursor_writes a ++ cursor_writes b.
Proof. apply flat_map_app. Qed.

Lemma requested_app (a b : list event) : requested (a ++ b) = requested a ++ requested b.
Proof. apply flat_map_app. Qed.

Lemma executed_app (a b : list event) : executed (a ++ b) = executed a ++ executed b.
Proof. apply flat_map_app. Qed.

Lemma cursor_writes_get (url : str) (l : list event) :
  cursor_writes (HttpGet url :: l) = cursor_writes l.
Proof. reflexivity. Qed.

Lemma requested_get (url : str) (l : list event) :
  requested (HttpGet url :: l) = url :: requested l.
Proof. reflexivity. Qed.

Lemma executed_get (url : str) (l : list event) :
  executed (HttpGet url :: l) = executed l.
Proof. reflexivity. Qed.

Lemma http_gets_requested (evs : list event) :
  http_gets evs = List.length (requested evs).
Proof.
  induction evs as [|e evs IH]; [reflexivity|].
  destruct e; cbn [requested flat_map app List.length]; try exact IH.
  rewrite http_gets_get. now f_equal.
Qed.

Lemma last_cons_default {A} (x : A) (l : list A) (d d' : A) :
  last (x :: l) d = last (x :: l) d'.
Proof.
  revert x. induction l as [|y l IH]; intros x; [reflexivity|].
  change (last (x :: y :: l) d) with (last (y :: l) d).
  change (last (x :: y :: l) d') with (last (y :: l) d'). apply IH.
Qed.

Lemma last_over_app {A} (a b : list A) (d : A) : last (a ++ b) d = last b (last a d).
Proof.
  induction a as [|x a IH]; [reflexivity|].
  destruct a as [|y a].
  - destruct b as [|z b]; [reflexivity|].
    change (last ([x] ++ z :: b) d) with (last (z :: b) d).
    apply last_cons_default.
  - change (last ((x :: y :: a) ++ b) d) with (last ((y :: a) ++ b) d).
    change (last (x :: y :: a) d) with (last (y :: a) d). exact IH.
Qed.

Lemma cursor_after_app (before : option str) (a b : list Z) :
  cursor_after before (a ++ b) = cursor_after (cursor_after before a) b.
Proof. unfold cursor_after. now rewrite map_app, last_over_app. Qed.

Lemma advanced_cons (u : update) (us : list update) :
  advanced (u :: us) = advanced [u] ++ advanced us.
Proof.
  unfold advanced. simpl. destruct (negb (update_id u =? 0)%Z); reflexivity.
Qed.

Lemma answer_log_quiet (x : exchange) :
  cursor_writes (answer_log x) = [] /\ requested (answer_log x) = [] /\
  executed (answer_log x) = [].
Proof.
  destruct x as [why|st data|st b|st]; simpl; auto.
  destruct (is_error_status st); [auto|].
  destruct (response_is_true data); auto.
Qed.

Lemma insert_movies_no_strike (fault : storage_fault) (batch : list movie) (w : world) :
  fault_strikes fault batch = false ->
  insert_movies fault batch w = insert_movies NoFault batch w.
Proof.
  intros Hs. destruct fault as [| |k|]; simpl in Hs; try discriminate; try reflexivity.
  - destruct batch as [|m batch]; [reflexivity|].
    destruct w as [cf mv tx tr]. run_storage.
    rewrite insert_each_some, Hs, insert_each_none. reflexivity.
  - destruct batch as [|m batch]; [reflexivity|discriminate].
Qed.

Lemma fault_strikes_at (fault : storage_fault) (batch : list movie) :
  fault_strikes fault batch = strikes_at fault (List.length batch).
Proof. destruct fault; try reflexivity. now destruct batch. Qed.

(** [insert_movies] returns normally whatever the storage does; what it
    leaves behind. *)
Lemma insert_movies_effects (fault : storage_fault) (batch : list movie) (w : world) :
  exists w' evs,
    insert_movies fault batch w = (Ok tt, w') /\
    cursor_file w' = cursor_file w /\
    trace w' = trace w ++ evs /\
    cursor_writes evs = [] /\ requested evs = [] /\
    if fault_strikes fault batch
    then movies w' = movies w /\ exists evs', evs = evs' ++ [Log ERROR DbBatchError]
    else movies w' = fold_left insert_or_ignore batch (movies w) /\
         evs = [ExecuteMany batch].
Proof.
  destruct (fault_strikes fault batch) eqn:Hs.
  - destruct (insert_movies_rolls_back fault batch w Hs) as (t & evs & -> & Hevs).
    eexists. exists (evs ++ [Log ERROR DbBatchError]). cbn [cursor_file trace movies].
    repeat split.
    + destruct Hevs as [-> | ->]; reflexivity.
    + destruct Hevs as [-> | ->]; reflexivity.
    + now exists evs.
  - rewrite (insert_movies_no_strike _ _ _ Hs), insert_movies_commits.
    eexists. exists [ExecuteMany batch]. repeat split.
Qed.

(** ** The ingestion job *)

Lemma bind_run {A B} (m : M A) (k : A -> M B) (w : world) :
  bind m k w = match m w with
               | (Ok a, w') => k a w'
               | (Raise e, w') => (Raise e, w')
               end.
Proof. reflexivity. Qed.

Lemma caption_default_is_placeholder (m : message) :
  PyStr.eqb (caption_or_default m) no_details = lookup_needed m.
Proof.
  unfold caption_or_default, lookup_needed.
  destruct (msg_caption m) as [c|]; [|reflexivity].
  destruct c as [|x c]; reflexivity.
Qed.

Lemma caption_default_is_caption (m : message) :
  lookup_needed m = false -> msg_caption m = Some (caption_or_default m).
Proof.
  unfold caption_or_default, lookup_needed.
  destruct (msg_caption m) as [c|]; [|discriminate].
  destruct c as [|x c]; [discriminate|reflexivity].
Qed.

Lemma lookup_needed_placeholder (m : message) :
  lookup_needed m = true -> caption_or_default m = no_details.
Proof.
  intros H. rewrite <- caption_default_is_placeholder in H. now apply eqb_eq in H.
Qed.

Lemma documents_cons (u : update) (us : list update) :
  documents (u :: us) = documents [u] ++ documents us.
Proof.
  simpl. destruct (upd_message u) as [m|]; [|reflexivity].
  destruct (msg_document m); reflexivity.
Qed.

Lemma lookups_app (a b : list (message * document)) :
  lookups (a ++ b) = (lookups a + lookups b)%nat.
Proof. unfold lookups. now rewrite filter_app, length_app. Qed.

Section JobFacts.
Variable is_alnum : char -> bool.
Variable is_space : char -> bool.
Variable is_decimal : char -> bool.
Variable int : str -> option Z.
Variable E : env.

Local Notation normalize := (normalize_movie_name is_alnum is_space is_decimal).
Local Notation job := (fetch_movies_from_channel is_alnum is_space is_decimal int E).
Local Notation body := (for_update is_alnum is_space is_decimal E).
Local Notation loop := (for_updates is_alnum is_space is_decimal E).
Local Notation the_url := (omdb_url (Ingestion.OMDB_API_KEY E) (normalize no_details)).

(** One round of the loop.  It leaves the table alone and saves the
    cursor first; then it either appends at most one tuple, having sent
    at most one request, or is cut short by a lookup that raises. *)
Lemma for_update_run (acc : list movie) (u : update) (w : world) :
  exists w' evs,
    movies w' = movies w /\
    trace w' = trace w ++ evs /\
    cursor_file w' = cursor_after (cursor_file w) (advanced [u]) /\
    cursor_writes evs = map str_of_int (advanced [u]) /\
    executed evs = [] /\
    ((exists entries,
        body acc u w = (Ok (acc ++ entries), w') /\
        requested evs = repeat the_url (lookups (documents [u])) /\
        Forall2 (staged_from normalize E) (documents [u]) entries)
     \/
     (exists e n,
        body acc u w = (Raise e, w') /\
        escapes (omdb_service E n the_url) = Some e /\
        requested evs = [the_url] /\
        lookups (documents [u]) = 1%nat)).
Proof.
  unfold for_update. rewrite bind_run.
  assert (Hpre : exists w1 evs1,
             (if (update_id u =? 0)%Z then ret tt
              else save_last_update_id (update_id u + 1)) w = (Ok tt, w1) /\
             movies w1 = movies w /\
             trace w1 = trace w ++ evs1 /\
             cursor_file w1 = cursor_after (cursor_file w) (advanced [u]) /\
             cursor_writes evs1 = map str_of_int (advanced [u]) /\
             requested evs1 = [] /\ executed evs1 = []).
  { unfold advanced, cursor_after. cbn [filter map].
    destruct (update_id u =? 0)%Z; cbn [negb map last].
    - exists w, []. rewrite app_nil_r. repeat split.
    - rewrite save_last_update_id_run. eexists. eexists. repeat split. }
  destruct Hpre as (w1 & evs1 & -> & Hm & Htr & Hcur & Hcw & Hrq & Hex).
  unfold documents.
  destruct (upd_message u) as [m|].
  2:{ exists w1, evs1. repeat (split; [assumption|]).
      left. exists []. rewrite app_nil_r. repeat split; [assumption|constructor]. }
  destruct (msg_document m) as [doc|].
  2:{ exists w1, evs1. repeat (split; [assumption|]).
      left. exists []. rewrite app_nil_r. repeat split; [assumption|constructor]. }
  rewrite bind_run. rewrite caption_default_is_placeholder.
  unfold lookups. cbn [filter fst].
  destruct (lookup_needed m) eqn:Hl.
  - rewrite bind_run, fetch_run. rewrite (lookup_needed_placeholder _ Hl).
    destruct (answer_log_quiet (omdb_service E (http_gets (trace w1)) the_url))
      as (Hq1 & Hq2 & Hq3).
    destruct (escapes (omdb_service E (http_gets (trace w1)) the_url)) as [e|] eqn:Hesc.
    + exists (after w1 [HttpGet the_url]), (evs1 ++ [HttpGet the_url]).
      split; [cbn [movies after]; assumption|].
      split; [cbn [trace after]; rewrite Htr, <- app_assoc; reflexivity|].
      split; [cbn [cursor_file after]; assumption|].
      split; [rewrite cursor_writes_app, Hcw; apply app_nil_r|].
      split; [rewrite executed_app, Hex; reflexivity|].
      right. exists e, (http_gets (trace w1)).
      split; [reflexivity|]. split; [assumption|].
      split; [rewrite requested_app, Hrq; reflexivity|reflexivity].
    + cbn [ret]. rewrite answer_truthy.
      exists (after w1 (HttpGet the_url
                        :: answer_log (omdb_service E (http_gets (trace w1)) the_url))),
             (evs1 ++ HttpGet the_url
                   :: answer_log (omdb_service E (http_gets (trace w1)) the_url)).
      split; [cbn [movies after]; assumption|].
      split; [cbn [trace after]; rewrite Htr, <- app_assoc; reflexivity|].
      split; [cbn [cursor_file after]; assumption|].
      split; [rewrite cursor_writes_app, Hcw, cursor_writes_get, Hq1; apply app_nil_r|].
      split; [rewrite executed_app, Hex, executed_get, Hq3; reflexivity|].
      left. eexists. split; [reflexivity|].
      split; [rewrite requested_app, Hrq, requested_get, Hq2; reflexivity|].
      constructor; [|constructor]. unfold staged_from.
      cbn [fst snd movie_file movie_name movie_details]. repeat split.
      * now rewrite (lookup_needed_placeholder _ Hl).
      * congruence.
      * intros _. now exists (http_gets (trace w1)).
  - cbn [ret]. exists w1, evs1. repeat (split; [assumption|]).
    left. exists [(normalize (caption_or_default m), caption_or_default m, doc_file_id doc)].
    split; [reflexivity|]. split; [assumption|].
    constructor; [|constructor]. unfold staged_from.
    cbn [fst snd movie_file movie_name movie_details]. repeat split.
    + intros _. now apply caption_default_is_caption.
    + congruence.
Qed.

(** The loop over the updates: it stages a tuple for each message with a
    document, or stops at the first lookup that raises. *)
Lemma for_updates_run (us : list update) (acc : list movie) (w : world) :
  exists w' evs,
    movies w' = movies w /\
    trace w' = trace w ++ evs /\
    executed evs = [] /\
    ((exists entries,
        loop acc us w = (Ok (acc ++ entries), w') /\
        cursor_file w' = cursor_after (cursor_file w) (advanced us) /\
        cursor_writes evs = map str_of_int (advanced us) /\
        requested evs = repeat the_url (lookups (documents us)) /\
        Forall2 (staged_from normalize E) (documents us) entries)
     \/
     (exists e n j,
        loop acc us w = (Raise e, w') /\
        escapes (omdb_service E n the_url) = Some e /\
        requested evs = repeat the_url (S j) /\
        (S j <= lookups (documents us))%nat)).
Proof.
  revert acc w. induction us as [|u us IH]; intros acc w.
  - exists w, []. rewrite app_nil_r. repeat (split; [reflexivity|]).
    left. exists []. rewrite app_nil_r. repeat split. constructor.
  - cbn [for_updates]. rewrite bind_run.
    destruct (for_update_run acc u w)
      as (w1 & evs1 & Hm1 & Htr1 & Hc1 & Hcw1 & Hex1 & Hcase1).
    destruct Hcase1 as [(e1 & -> & Hrq1 & Hs1)|(e & n & -> & Hesc & Hrq1 & Hl1)].
    + destruct (IH (acc ++ e1) w1) as (w2 & evs2 & Hm2 & Htr2 & Hex2 & Hcase2).
      exists w2, (evs1 ++ evs2).
      split; [congruence|].
      split; [rewrite Htr2, Htr1; now rewrite app_assoc|].
      split; [now rewrite executed_app, Hex1, Hex2|].
      rewrite documents_cons, advanced_cons, lookups_app.
      destruct Hcase2 as [(e2 & -> & Hc2 & Hcw2 & Hrq2 & Hs2)|(e & n & j & -> & Hesc & Hrq2 & Hj)].
      * left. exists (e1 ++ e2). rewrite app_assoc. split; [reflexivity|].
        split; [now rewrite cursor_after_app, <- Hc1|].
        split; [now rewrite cursor_writes_app, map_app, Hcw1, Hcw2|].
        split; [now rewrite requested_app, repeat_app, Hrq1, Hrq2|].
        now apply Forall2_app.
      * right. exists e, n, (lookups (documents [u]) + j)%nat.
        split; [reflexivity|]. split; [assumption|].
        split; [|lia].
        rewrite requested_app, Hrq1, Hrq2, <- repeat_app. f_equal. lia.
    + exists w1, evs1. repeat (split; [assumption|]).
      right. exists e, n, 0%nat. split; [reflexivity|]. split; [assumption|].
      split; [assumption|].
      rewrite documents_cons, lookups_app. lia.
Qed.

(** The head of a cycle: the cursor is read, the request is sent, and
    the answer of the channel client decides how the cycle goes on. *)
Lemma job_unfold (w w1 : world) (off : option Z) :
  get_last_update_id is_space int w = (Ok off, w1) ->
  job w =
  match bot_get_updates E off with
  | Ok us =>
      bind (loop [] us)
           (fun acc => match acc with
                       | [] => ret tt
                       | _ :: _ => insert_movies (db_fault E) acc
                       end)
           (after w1 [Log INFO FetchingUpdates; GetUpdates off])
  | Raise e =>
      if handled e
      then (Ok tt, after w1 ([Log INFO FetchingUpdates; GetUpdates off] ++ abort_events e))
      else (Raise e, after w1 [Log INFO FetchingUpdates; GetUpdates off])
  end.
Proof.
  intros Hrun.
  unfold fetch_movies_from_channel. rewrite bind_run, Hrun.
  destruct w1 as [cf mv tx tr].
  cbv beta iota zeta delta
    [try_except bind get_updates emit get_world ret raise logging after
     txn movies cursor_file trace fst snd].
  destruct (bot_get_updates E off) as [us|e].
  - rewrite <- !app_assoc. reflexivity.
  - destruct e; cbn [handled abort_events]; rewrite <- ?app_assoc; reflexivity.
Qed.

(** The request of a cycle carries the cursor that was read. *)
Lemma job_request (w w1 : world) (off : option Z) :
  get_last_update_id is_space int w = (Ok off, w1) ->
  exists rest,
    trace (snd (job w)) = trace w1 ++ [Log INFO FetchingUpdates; GetUpdates off] ++ rest.
Proof.
  intros Hrun. rewrite (job_unfold _ Hrun).
  destruct (bot_get_updates E off) as [us|e].
  - rewrite bind_run.
    destruct (for_updates_run us [] (after w1 [Log INFO FetchingUpdates; GetUpdates off]))
      as (w2 & evs & _ & Htr & _ & Hcase).
    cbn [app after trace] in Htr. rewrite <- app_assoc in Htr. cbn [app] in Htr.
    destruct Hcase as [(batch & -> & _)|(e & n & j & -> & _)].
    + cbn [app]. destruct batch as [|m batch].
      * exists evs. exact Htr.
      * destruct (insert_movies_effects (db_fault E) (m :: batch) w2)
          as (w3 & evs3 & -> & _ & Htr3 & _).
        exists (evs ++ evs3). cbn [snd]. rewrite Htr3, Htr, <- app_assoc. reflexivity.
    + exists evs. exact Htr.
  - destruct (handled e).
    + exists (abort_events e). cbn [snd after trace]. rewrite <- ?app_assoc. reflexivity.
    + exists []. cbn [snd after trace]. rewrite <- ?app_assoc. reflexivity.
Qed.

(** A cycle whose request is answered, with everything it leaves
    behind: either the loop went through and the batch, if any, was
    handed to [insert_movies]; or a lookup raised, the exception left the
    cycle, and nothing was handed over. *)
Lemma job_run_from (w : world) (off : option Z) (pre : list event) (us : list update) :
  get_last_update_id is_space int w = (Ok off, after w pre) ->
  pre = [] \/ pre = [Log ERROR CursorUnreadable] ->
  bot_get_updates E off = Ok us ->
  exists evs,
    trace (snd (job w)) = trace w ++ evs /\
    ((exists batch,
        fst (job w) = Ok tt /\
        cursor_file (snd (job w)) = cursor_after (cursor_file w) (advanced us) /\
        cursor_writes evs = map str_of_int (advanced us) /\
        requested evs = repeat the_url (lookups (documents us)) /\
        Forall2 (staged_from normalize E) (documents us) batch /\
        movies (snd (job w))
        = (if fault_strikes (db_fault E) batch then movies w
           else fold_left insert_or_ignore batch (movies w)) /\
        (batch = [] -> executed evs = []) /\
        (batch <> [] -> fault_strikes (db_fault E) batch = true ->
         exists evs', evs = evs' ++ [Log ERROR DbBatchError]))
     \/
     (exists e n j,
        fst (job w) = Raise e /\
        escapes (omdb_service E n the_url) = Some e /\
        movies (snd (job w)) = movies w /\
        requested evs = repeat the_url (S j) /\
        (S j <= lookups (documents us))%nat /\
        executed evs = [])).
Proof.
  intros Hrun Hpre Hups.
  rewrite (job_unfold _ Hrun), Hups, bind_run.
  destruct (for_updates_run us []
              (after (after w pre) [Log INFO FetchingUpdates; GetUpdates off]))
    as (w2 & evs & Hm & Htr & Hex & Hcase).
  cbn [app after trace movies cursor_file] in Hm, Htr, Hcase.
  assert (Hpre' : cursor_writes pre = [] /\ requested pre = [] /\ executed pre = [])
    by (destruct Hpre as [-> | ->]; repeat split).
  destruct Hpre' as (Hp1 & Hp2 & Hp3).
  destruct Hcase as [(batch & -> & Hcur & Hcw & Hrq & Hst)|(e & n & j & -> & Hesc & Hrq & Hj)].
  - cbn [app]. destruct batch as [|m batch].
    + exists (pre ++ [Log INFO FetchingUpdates; GetUpdates off] ++ evs).
      cbn [fst snd ret].
      split; [rewrite Htr, <- !app_assoc; reflexivity|].
      left. exists []. repeat split; auto.
      * rewrite !cursor_writes_app, Hp1, Hcw. reflexivity.
      * rewrite !requested_app, Hp2, Hrq. reflexivity.
      * rewrite Hm. now destruct (fault_strikes (db_fault E) []).
      * intros _. rewrite !executed_app, Hp3, Hex. reflexivity.
      * congruence.
    + destruct (insert_movies_effects (db_fault E) (m :: batch) w2)
        as (w3 & evs3 & -> & Hc3 & Htr3 & Hcw3 & Hrq3 & Hmov).
      exists (pre ++ [Log INFO FetchingUpdates; GetUpdates off] ++ evs ++ evs3).
      cbn [fst snd].
      split; [rewrite Htr3, Htr, <- !app_assoc; reflexivity|].
      left. exists (m :: batch). repeat split; auto.
      * congruence.
      * rewrite !cursor_writes_app, Hp1, Hcw, Hcw3, app_nil_r. reflexivity.
      * rewrite !requested_app, Hp2, Hrq, Hrq3, app_nil_r. reflexivity.
      * destruct (fault_strikes (db_fault E) (m :: batch)).
        -- destruct Hmov as [-> _]. assumption.
        -- destruct Hmov as [-> _]. now rewrite Hm.
      * discriminate.
      * intros _ Hs. rewrite Hs in Hmov. destruct Hmov as (_ & evs' & ->).
        exists (pre ++ [Log INFO FetchingUpdates; GetUpdates off] ++ evs ++ evs').
        now rewrite <- !app_assoc.
  - exists (pre ++ [Log INFO FetchingUpdates; GetUpdates off] ++ evs).
    cbn [fst snd].
    split; [rewrite Htr, <- !app_assoc; reflexivity|].
    right. exists e, n, j. repeat split; auto.
    + rewrite !requested_app, Hp2, Hrq. reflexivity.
    + rewrite !executed_app, Hp3, Hex. reflexivity.
Qed.

Lemma job_run_any (w : world) (us : list update) :
  (forall off, bot_get_updates E off = Ok us) ->
  exists evs,
    trace (snd (job w)) = trace w ++ evs /\
    ((exists batch,
        fst (job w) = Ok tt /\
        cursor_file (snd (job w)) = cursor_after (cursor_file w) (advanced us) /\
        cursor_writes evs = map str_of_int (advanced us) /\
        requested evs = repeat the_url (lookups (documents us)) /\
        Forall2 (staged_from normalize E) (documents us) batch /\
        movies (snd (job w))
        = (if fault_strikes (db_fault E) batch then movies w
           else fold_left insert_or_ignore batch (movies w)) /\
        (batch = [] -> executed evs = []) /\
        (batch <> [] -> fault_strikes (db_fault E) batch = true ->
         exists evs', evs = evs' ++ [Log ERROR DbBatchError]))
     \/
     (exists e n j,
        fst (job w) = Raise e /\
        escapes (omdb_service E n the_url) = Some e /\
        movies (snd (job w)) = movies w /\
        requested evs = repeat the_url (S j) /\
        (S j <= lookups (documents us))%nat /\
        executed evs = [])).
Proof.
  intros Hups.
  destruct (get_last_update_id_cases is_space int w) as (off & pre & Hrun & Hpre).
  exact (job_run_from Hrun Hpre (Hups off)).
Qed.

(** The same cycle when every answer of the metadata service is well
    formed: no lookup raises, and the cycle returns. *)
Lemma job_run (w : world) (us : list update) :
  (forall off, bot_get_updates E off = Ok us) ->
  (forall n url, well_formed (omdb_service E n url) = true) ->
  exists batch evs,
    fst (job w) = Ok tt /\
    trace (snd (job w)) = trace w ++ evs /\
    cursor_file (snd (job w)) = cursor_after (cursor_file w) (advanced us) /\
    cursor_writes evs = map str_of_int (advanced us) /\
    requested evs = repeat the_url (lookups (documents us)) /\
    Forall2 (staged_from normalize E) (documents us) batch /\
    movies (snd (job w))
    = (if fault_strikes (db_fault E) batch then movies w
       else fold_left insert_or_ignore batch (movies w)) /\
    (batch = [] -> executed evs = []) /\
    (batch <> [] -> fault_strikes (db_fault E) batch = true ->
     exists evs', evs = evs' ++ [Log ERROR DbBatchError]).
Proof.
  intros Hups Hwf.
  destruct (job_run_any w Hups) as (evs & Htr & [(batch & H)|(e & n & j & _ & Hesc & _)]).
  - exists batch, evs. tauto.
  - rewrite (well_formed_returns _ (Hwf n _)) in Hesc. discriminate.
Qed.

End JobFacts.

Section JobClaims.
Variable is_alnum : char -> bool.
Variable is_space : char -> bool.
Variable is_decimal : char -> bool.
Variable int : str -> option Z.
Variable E : env.

Local Notation normalize := (normalize_movie_name is_alnum is_space is_decimal).
Local Notation job := (fetch_movies_from_channel is_alnum is_space is_decimal int E).

(** C3, as the program has it: in a cycle whose request is answered,
    with well-formed answers of the metadata service and a working
    storage, every message with a document stages one tuple; when its
    caption is present, not empty and not the placeholder text "No
    details available", the details of the tuple are that caption
    verbatim; and the number of requests sent to the metadata service is
    the number of messages whose caption is absent, empty or the
    placeholder text: none is sent for the others. *)
Theorem lookup_only_without_caption (w : world) (us : list update) :
  (forall off, bot_get_updates E off = Ok us) ->
  (forall n url, well_formed (omdb_service E n url) = true) ->
  db_fault E = NoFault ->
  exists batch,
    fst (job w) = Ok tt /\
    Forall2 (staged_from normalize E) (documents us) batch /\
    movies (snd (job w)) = fold_left insert_or_ignore batch (movies w) /\
    http_gets (trace (snd (job w))) = (http_gets (trace w) + lookups (documents us))%nat.
Proof.
  intros Hups Hwf Hfault.
  destruct (@job_run is_alnum is_space is_decimal int E w us Hups Hwf)
    as (batch & evs & Hok & Htr & _ & _ & Hrq & Hst & Hmov & _).
  exists batch. repeat split; auto.
  - rewrite Hmov, Hfault. reflexivity.
  - rewrite Htr, http_gets_app, (http_gets_requested evs), Hrq, repeat_length.
    reflexivity.
Qed.

(** C9: when the channel client raises a rate-limit, duplicate-consumer
    or authorization error, the cycle returns normally; the cursor file
    and the table are what they were; the events of the cycle are the
    log of an unreadable cursor if any, the request, and the log of the
    error, followed for a rate limit by a sleep of the advised
    duration; no cursor write, insert or lookup is among them. *)
Theorem channel_error_aborts_cycle (w : world) (e : exn) :
  (forall off, bot_get_updates E off = Raise e) ->
  (exists seconds, e = RetryAfter seconds) \/ e = Conflict \/ e = Unauthorized ->
  exists off pre,
    (pre = [] \/ pre = [Log ERROR CursorUnreadable]) /\
    job w = (Ok tt, after w (pre ++ [Log INFO FetchingUpdates; GetUpdates off]
                                 ++ abort_events e)) /\
    cursor_file (snd (job w)) = cursor_file w /\
    movies (snd (job w)) = movies w /\
    forallb (fun ev => negb (is_write ev))
            (pre ++ [Log INFO FetchingUpdates; GetUpdates off] ++ abort_events e) = true /\
    (forall seconds, e = RetryAfter seconds ->
       abort_events e = [Log ERROR RateLimitExceeded; Sleep seconds]).
Proof.
  intros Hups He.
  destruct (get_last_update_id_cases is_space int w) as (off & pre & Hrun & Hpre).
  exists off, pre.
  assert (Hh : handled e = true) by (destruct He as [[s ->]|[-> | ->]]; reflexivity).
  assert (Hjob : job w = (Ok tt, after w (pre ++ [Log INFO FetchingUpdates; GetUpdates off]
                                              ++ abort_events e))).
  { rewrite (@job_unfold is_alnum is_space is_decimal int E w _ _ Hrun), Hups, Hh, after_after. reflexivity. }
  rewrite Hjob. cbn [snd after cursor_file movies]. repeat split; auto.
  - destruct Hpre as [-> | ->]; destruct He as [[s ->]|[-> | ->]]; reflexivity.
  - intros s ->. reflexivity.
Qed.

(** C10: when the cursor file exists and its content is not an integer,
    reading the cursor logs the error and gives [None] without raising;
    the cycle goes on and requests the updates with no offset; and it
    returns normally when that request is answered and the answers of
    the metadata service are well formed. *)
Theorem corrupted_cursor_resets (w : world) (content : str) :
  cursor_file w = Some content ->
  int (strip is_space content) = None ->
  get_last_update_id is_space int w = (Ok None, after w [Log ERROR CursorUnreadable]) /\
  (exists rest,
     trace (snd (job w)) =
     trace w ++ [Log ERROR CursorUnreadable; Log INFO FetchingUpdates; GetUpdates None]
             ++ rest) /\
  (forall us,
     bot_get_updates E None = Ok us ->
     (forall n url, well_formed (omdb_service E n url) = true) ->
     fst (job w) = Ok tt).
Proof.
  intros Hfile Hint.
  assert (Hrun : get_last_update_id is_space int w
                 = (Ok None, after w [Log ERROR CursorUnreadable])).
  { now rewrite get_last_update_id_run, Hfile, Hint. }
  split; [assumption|]. split.
  - destruct (@job_request is_alnum is_space is_decimal int E w _ _ Hrun) as (rest & Htr).
    exists rest. rewrite Htr. cbn [after trace]. rewrite <- app_assoc. reflexivity.
  - intros us Hups Hwf.
    destruct (@job_run_from is_alnum is_space is_decimal int E w None _ us
                Hrun (or_intror eq_refl) Hups)
      as (evs & _ & [(batch & Hok & _)|(e & n & j & _ & Hesc & _)]).
    + exact Hok.
    + rewrite (well_formed_returns _ (Hwf n _)) in Hesc. discriminate.
Qed.

End JobClaims.

Lemma lookup_only_without_caption_witness :
  let us := [posting (Some (py "Heat, 1995")); posting None] in
  let E := answering us (fun _ _ => Responded 200 heat_found) in
  exists batch,
    fst (job_latin E blank) = Ok tt /\
    Forall2 (staged_from
               (normalize_movie_name Latin.is_alnum Latin.is_space Latin.is_decimal) E)
            (documents us) batch /\
    movies (snd (job_latin E blank)) = fold_left insert_or_ignore batch (movies blank) /\
    http_gets (trace (snd (job_latin E blank)))
    = (http_gets (trace blank) + lookups (documents us))%nat.
Proof.
  intros us E.
  apply (@lookup_only_without_caption
           Latin.is_alnum Latin.is_space Latin.is_decimal latin_int E blank us).
  - intros off. reflexivity.
  - intros n url. reflexivity.
  - reflexivity.
Defined.

Example caption_is_the_description :
  map details (movies (snd (job_latin (answering [posting (Some (py "Heat, 1995"))]
                                                  (fun _ _ => Failed TimedOut)) blank)))
  = [py "Heat, 1995"] /\
  http_gets (trace (snd (job_latin (answering [posting (Some (py "Heat, 1995"))]
                                              (fun _ _ => Failed TimedOut)) blank))) = 0%nat.
Proof. split; reflexivity. Qed.

(** C3 fails as worded: a message whose caption is the non-empty string
    "No details available" has a request sent for it, and what is
    stored is the summary of the answer, not the caption. *)
Lemma placeholder_caption_is_looked_up :
  let caption := py "No details available" in
  let E := answering [posting (Some caption)] (fun _ _ => Responded 200 heat_found) in
  let w' := snd (job_latin E blank) in
  truthy caption = true /\
  http_gets (trace w') = 1%nat /\
  map details (movies w') = [summary heat_found] /\
  map details (movies w') <> [caption].
Proof. repeat split; try reflexivity. discriminate. Qed.

Lemma channel_error_aborts_cycle_witness :
  let w := mkWorld (Some (py "41")) [] None [] in
  exists off pre,
    (pre = [] \/ pre = [Log ERROR CursorUnreadable]) /\
    job_latin (failing (RetryAfter 30)) w
    = (Ok tt, after w (pre ++ [Log INFO FetchingUpdates; GetUpdates off]
                           ++ abort_events (RetryAfter 30))) /\
    cursor_file (snd (job_latin (failing (RetryAfter 30)) w)) = cursor_file w /\
    movies (snd (job_latin (failing (RetryAfter 30)) w)) = movies w /\
    forallb (fun ev => negb (is_write ev))
            (pre ++ [Log INFO FetchingUpdates; GetUpdates off]
                 ++ abort_events (RetryAfter 30)) = true /\
    (forall seconds, RetryAfter 30 = RetryAfter seconds ->
       abort_events (RetryAfter 30) = [Log ERROR RateLimitExceeded; Sleep seconds]).
Proof.
  intros w.
  apply (@channel_error_aborts_cycle
           Latin.is_alnum Latin.is_space Latin.is_decimal latin_int
           (failing (RetryAfter 30)) w (RetryAfter 30)).
  - intros off. reflexivity.
  - left. exists 30%Z. reflexivity.
Defined.

Example rate_limit_cycle :
  job_latin (failing (RetryAfter 30)) (mkWorld (Some (py "41")) [] None [])
  = (Ok tt, mkWorld (Some (py "41")) [] None
                    [Log INFO FetchingUpdates; GetUpdates (Some 41%Z);
                     Log ERROR RateLimitExceeded; Sleep 30]).
Proof. reflexivity. Qed.

Lemma corrupted_cursor_resets_witness :
  let w := mkWorld (Some (py "4x1")) [] None [] in
  let E := answering [posting (Some (py "Heat, 1995"))] (fun _ _ => Failed TimedOut) in
  get_last_update_id Latin.is_space latin_int w
  = (Ok None, after w [Log ERROR CursorUnreadable]) /\
  (exists rest,
     trace (snd (job_latin E w)) =
     trace w ++ [Log ERROR CursorUnreadable; Log INFO FetchingUpdates; GetUpdates None]
             ++ rest) /\
  (forall us,
     bot_get_updates E None = Ok us ->
     (forall n url, well_formed (omdb_service E n url) = true) ->
     fst (job_latin E w) = Ok tt).
Proof.
  intros w E.
  apply (@corrupted_cursor_resets
           Latin.is_alnum Latin.is_space Latin.is_decimal latin_int E w (py "4x1")).
  - reflexivity.
  - reflexivity.
Defined.

Example latin_int_samples :
  latin_int (py "41") = Some 41%Z /\ latin_int (py "-7") = Some (-7)%Z /\
  latin_int (py "1_000") = Some 1000%Z /\ latin_int (py "") = None /\
  latin_int (py "4x1") = None /\ latin_int (py "1__0") = None /\
  latin_int (py "12_") = None.
Proof. repeat split; reflexivity. Qed.

(** A lookup that raises cuts the cycle short: the cursor has been
    saved, nothing is inserted, and the exception leaves the cycle. *)
Example raising_lookup_cuts_cycle :
  let w' := snd (job_latin (answering [posting None] (fun _ _ => NotAnObject 200)) blank) in
  fst (job_latin (answering [posting None] (fun _ _ => NotAnObject 200)) blank)
  = Raise AttributeError /\
  cursor_file w' = Some (py "8") /\ movies w' = [] /\ executed (trace w') = [].
Proof. repeat split; reflexivity. Qed.

(** ** The metadata resolver, as a whole *)

Section Lookup.

(** The text of a field in the summary: [data.get(field, 'N/A')] inside
    the f-string. *)
Local Notation shown data field :=
  (match dict_get data (py field) with
   | Some (JStr s) => s
   | Some (JOther rendered) => rendered
   | None => py "N/A"
   end).

(** C8, as the program has it: on a request that raises, on an error
    status (400 to 599) and on an answer that is a JSON object, a lookup
    returns and leaves table and cursor alone.  Its result is the error
    text when the request raised or the status is an error status,
    whatever the body; otherwise, for a JSON object, the five labelled
    lines "Title", "Year", "Genre", "Director", "Plot" when [Response]
    is the string "True", each with the value of the field or "N/A"
    when the object lacks it, and the not-available text when it is
    not; the two texts differ.  In a cycle, a message without caption
    whose lookup times out is stored with the error text as its
    details. *)
Theorem lookup_yields_one_of_three :
  (forall key service name w why,
     service (http_gets (trace w)) (omdb_url key name) = Failed why ->
     exists w',
       fetch_movie_details_from_omdb key service name w = (Ok error_fetching, w') /\
       movies w' = movies w /\ cursor_file w' = cursor_file w) /\
  (forall key service name w status_code,
     (400 <= status_code < 600)%Z ->
     (exists data,
        service (http_gets (trace w)) (omdb_url key name) = Responded status_code data) \/
     (exists as_request_exception,
        service (http_gets (trace w)) (omdb_url key name)
        = Undecodable status_code as_request_exception) \/
     service (http_gets (trace w)) (omdb_url key name) = NotAnObject status_code ->
     exists w',
       fetch_movie_details_from_omdb key service name w = (Ok error_fetching, w') /\
       movies w' = movies w /\ cursor_file w' = cursor_file w) /\
  (forall key service name w status_code data,
     service (http_gets (trace w)) (omdb_url key name) = Responded status_code data ->
     ~ (400 <= status_code < 600)%Z ->
     exists d w',
       fetch_movie_details_from_omdb key service name w = (Ok d, w') /\
       movies w' = movies w /\ cursor_file w' = cursor_file w /\
       (dict_get data (py "Response") = Some (JStr (py "True")) ->
        d = py "Title: " ++ shown data "Title" ++ [newline] ++
            py "Year: " ++ shown data "Year" ++ [newline] ++
            py "Genre: " ++ shown data "Genre" ++ [newline] ++
            py "Director: " ++ shown data "Director" ++ [newline] ++
            py "Plot: " ++ shown data "Plot") /\
       (dict_get data (py "Response") <> Some (JStr (py "True")) ->
        d = py "Movie details not available.")) /\
  error_fetching = py "Error fetching movie details." /\
  not_available <> error_fetching /\
  (forall is_alnum is_space is_decimal int E w u m doc,
     (forall off, bot_get_updates E off = Ok [u]) ->
     upd_message u = Some m -> msg_document m = Some doc -> msg_caption m = None ->
     (forall n url, omdb_service E n url = Failed TimedOut) ->
     db_fault E = NoFault ->
     has_name (normalize_movie_name is_alnum is_space is_decimal no_details) (movies w)
     = false ->
     exists i,
       movies (snd (fetch_movies_from_channel is_alnum is_space is_decimal int E w))
       = movies w ++ [mkRow i (normalize_movie_name is_alnum is_space is_decimal no_details)
                            error_fetching (doc_file_id doc)]).
Proof.
  split; [|split; [|split; [|split; [|split]]]].
  - intros key service name w why Hx. rewrite fetch_run, Hx. cbn [escapes answer].
    eexists. split; [reflexivity|]. split; reflexivity.
  - intros key service name w st Hst Hx. apply is_error_status_iff in Hst.
    rewrite fetch_run.
    destruct Hx as [[data ->]|[[b ->]| ->]]; cbn [escapes answer]; rewrite Hst; cbn [orb];
      eexists; (split; [reflexivity|]); split; reflexivity.
  - intros key service name w st data Hx Hst.
    assert (Hst' : is_error_status st = false).
    { destruct (is_error_status st) eqn:H; [|reflexivity].
      apply is_error_status_iff in H. contradiction. }
    rewrite fetch_run, Hx. cbn [escapes answer]. rewrite Hst'.
    eexists. eexists. split; [reflexivity|].
    split; [reflexivity|]. split; [reflexivity|]. split.
    + intros Htrue. apply response_is_true_iff in Htrue. rewrite Htrue. reflexivity.
    + intros Hnot. destruct (response_is_true data) eqn:H; [|reflexivity].
      apply response_is_true_iff in H. contradiction.
  - reflexivity.
  - discriminate.
  - intros is_alnum is_space is_decimal int E w u m doc Hups Hm Hdoc Hcap Htimeout Hfault Hnew.
    assert (Hwf : forall n url, well_formed (omdb_service E n url) = true)
      by (intros n url; now rewrite Htimeout).
    destruct (@job_run is_alnum is_space is_decimal int E w [u] Hups Hwf)
      as (batch & evs & _ & _ & _ & _ & _ & Hst & Hmovies & _).
    rewrite Hmovies, Hfault. clear Hmovies. cbn [fault_strikes].
    unfold documents in Hst. rewrite Hm, Hdoc in Hst.
    inversion Hst as [|md e l l' Hfrom Hrest]; subst.
    inversion Hrest; subst.
    destruct Hfrom as (Hfile & Hname & _ & Hlook). cbn [fst snd] in *.
    assert (Hneeded : lookup_needed m = true) by (unfold lookup_needed; now rewrite Hcap).
    destruct (Hlook Hneeded) as [n Hdetails]. rewrite Htimeout in Hdetails.
    assert (Hplace : caption_or_default m = no_details)
      by (unfold caption_or_default; now rewrite Hcap).
    rewrite Hplace in Hname.
    cbn [fold_left]. unfold insert_or_ignore. rewrite Hname, Hnew.
    exists (next_id (movies w)). now rewrite Hdetails, Hfile.
Qed.

End Lookup.

Lemma lookup_yields_one_of_three_witness :
  (exists d w',
     fetch_movie_details_from_omdb (py "k") (fun _ _ => Responded 200 heat_found)
       (py "Heat") blank = (Ok d, w') /\
     movies w' = movies blank /\ cursor_file w' = cursor_file blank /\
     (dict_get heat_found (py "Response") = Some (JStr (py "True")) ->
      d = py "Title: Heat" ++ [newline] ++ py "Year: 1995" ++ [newline] ++
          py "Genre: N/A" ++ [newline] ++ py "Director: N/A" ++ [newline] ++
          py "Plot: N/A") /\
     (dict_get heat_found (py "Response") <> Some (JStr (py "True")) ->
      d = py "Movie details not available.")) /\
  exists i,
    movies (snd (job_latin (answering [posting None] (fun _ _ => Failed TimedOut)) blank))
    = movies blank
      ++ [mkRow i (normalize_movie_name Latin.is_alnum Latin.is_space Latin.is_decimal
                     no_details)
                error_fetching (doc_file_id {| doc_file_id := py "file-1" |})].
Proof.
  destruct lookup_yields_one_of_three as (_ & _ & Hobject & _ & _ & H).
  split.
  - apply (Hobject (py "k") (fun _ _ => Responded 200 heat_found) (py "Heat") blank
             200%Z heat_found).
    + reflexivity.
    + lia.
  - apply (H Latin.is_alnum Latin.is_space Latin.is_decimal latin_int
             (answering [posting None] (fun _ _ => Failed TimedOut)) blank
             (posting None)
             {| msg_document := Some {| doc_file_id := py "file-1" |}; msg_caption := None |}
             {| doc_file_id := py "file-1" |}).
    + intros off. reflexivity.
    + reflexivity.
    + reflexivity.
    + reflexivity.
    + intros n url. reflexivity.
    + reflexivity.
    + reflexivity.
Defined.

(** C8 fails as worded, twice.  A status that is not 2xx and not an
    error status, 304 here, is not a failure for [raise_for_status]: the
    answer is read and the summary returned, not the error text.  And
    the lookup is not total: on a 200 answer whose body is JSON but not
    an object, [data.get] raises [AttributeError], which the handler for
    [RequestException] lets through to the caller. *)
Lemma lookup_is_not_total :
  fst (fetch_movie_details_from_omdb (py "k") (fun _ _ => Responded 304 heat_found)
         (py "Heat") blank)
  = Ok (py "Title: Heat" ++ [newline] ++ py "Year: 1995" ++ [newline] ++
        py "Genre: N/A" ++ [newline] ++ py "Director: N/A" ++ [newline] ++
        py "Plot: N/A") /\
  fst (fetch_movie_details_from_omdb (py "k") (fun _ _ => Responded 304 heat_found)
         (py "Heat") blank)
  <> Ok error_fetching /\
  fst (fetch_movie_details_from_omdb (py "k") (fun _ _ => NotAnObject 200)
         (py "Heat") blank)
  = Raise AttributeError.
Proof. repeat split; try reflexivity. discriminate. Qed.

Example summary_of_partial_answer :
  summary heat_found
  = py "Title: Heat" ++ [newline] ++ py "Year: 1995" ++ [newline] ++
    py "Genre: N/A" ++ [newline] ++ py "Director: N/A" ++ [newline] ++ py "Plot: N/A".
Proof. reflexivity. Qed.

Example timed_out_lookup_is_stored :
  movies (snd (job_latin (answering [posting None] (fun _ _ => Failed TimedOut)) blank))
  = [mkRow 1 (py "No details available") (py "Error fetching movie details.")
           (py "file-1")].
Proof. reflexivity. Qed.

(** ** The semantic matcher *)

Section MatcherFacts.
Variable vec : Type.
Variable embed : str -> vec.
Variable cosine_similarity : vec -> vec -> Q.
Variable floor : Q.

Local Notation sim := (similarity embed cosine_similarity).
Local Notation dist := (distance embed cosine_similarity).
Local Notation nearest := (nearest embed cosine_similarity).

(** The text of an entry that goes into the embedding, written out: the
    description, or the key when the description is empty or one of the
    two texts a failed lookup leaves. *)
Local Notation text m :=
  (if negb (truthy (movie_details m))
      || (PyStr.eqb (movie_details m) (py "Movie details not available.")
          || PyStr.eqb (movie_details m) (py "Error fetching movie details."))
   then movie_name m else movie_details m).

(** The cosine similarity of a query and an entry, on their embeddings. *)
Local Notation cosine query m := (cosine_similarity (embed query) (embed (text m))).

Lemma nearest_none (q : vec) (catalog : list movie) :
  nearest q catalog = None -> catalog = [].
Proof.
  destruct catalog as [|m rest]; [reflexivity|]. simpl.
  destruct (nearest q rest) as [b|]; [|discriminate].
  destruct (Qle_bool (dist q m) (dist q b)); discriminate.
Qed.

Lemma nearest_minimal (q : vec) (catalog : list movie) (b : movie) :
  nearest q catalog = Some b ->
  In b catalog /\ forall m, In m catalog -> (dist q b <= dist q m)%Q.
Proof.
  revert b. induction catalog as [|m rest IH]; intros b; [discriminate|].
  simpl. destruct (nearest q rest) as [b'|] eqn:Hrest.
  - destruct (IH b' eq_refl) as [Hin Hmin].
    destruct (Qle_bool (dist q m) (dist q b')) eqn:Hle; intros [= <-].
    + apply Qle_bool_iff in Hle. split; [now left|].
      intros m' [<-|Hm']; [apply Qle_refl|].
      eapply Qle_trans; [exact Hle|now apply Hmin].
    + assert (Hlt : (dist q b' < dist q m)%Q).
      { apply Qnot_le_lt. intros H. apply Qle_bool_iff in H. congruence. }
      split; [now right|].
      intros m' [<-|Hm']; [now apply Qlt_le_weak|now apply Hmin].
  - intros [= <-]. apply nearest_none in Hrest. subst. split; [now left|].
    intros m' [<-|[]]. apply Qle_refl.
Qed.

(** C1: when [best_match] returns an entry, it is an entry of the
    catalog whose embedded text (the description, or the key when the
    description is empty or a sentinel) is at the smallest cosine
    distance, one minus the cosine similarity, from the embedded query
    among all entries, and its cosine similarity reaches the floor; and
    [best_match] returns absent exactly when the cosine similarity of
    every entry is below the floor. *)
Theorem best_match_nearest_or_absent (query : str) (catalog : list movie) :
  (forall b, best_match embed cosine_similarity floor query catalog = Some b ->
     In b catalog /\
     (forall m, In m catalog -> (1 - cosine query b <= 1 - cosine query m)%Q) /\
     (floor <= cosine query b)%Q) /\
  (best_match embed cosine_similarity floor query catalog = None <->
   forall m, In m catalog -> (cosine query m < floor)%Q).
Proof.
  unfold best_match.
  destruct (nearest (embed query) catalog) as [b|] eqn:Hn.
  - destruct (nearest_minimal _ _ Hn) as [Hin Hmin].
    destruct (Qle_bool floor (sim (embed query) b)) eqn:Hfl.
    + apply Qle_bool_iff in Hfl. split.
      * intros b' [= <-]. split; [assumption|]. split; [|exact Hfl].
        intros m Hm. exact (Hmin m Hm).
      * split; [discriminate|].
        intros Hall. specialize (Hall b Hin).
        change (cosine query b) with (sim (embed query) b) in Hall. lra.
    + assert (Hlt : (sim (embed query) b < floor)%Q).
      { apply Qnot_le_lt. intros H. apply Qle_bool_iff in H. congruence. }
      split; [discriminate|]. split; [|reflexivity].
      intros _ m Hm. specialize (Hmin m Hm).
      change (1 - cosine query b <= 1 - cosine query m)%Q in Hmin.
      change (cosine query b < floor)%Q in Hlt. lra.
  - apply nearest_none in Hn. subst. split; [discriminate|].
    split; [intros _ m []|reflexivity].
Qed.

End MatcherFacts.

Lemma best_match_nearest_or_absent_witness :
  let hit := (py "Ran (1985)", py "Movie details not available.", py "f2") in
  In hit shelf /\
  (forall m, In m shelf ->
     (1 - same_text (py "Ran (1985)")
            (if negb (truthy (movie_details hit))
                || (PyStr.eqb (movie_details hit) (py "Movie details not available.")
                    || PyStr.eqb (movie_details hit) (py "Error fetching movie details."))
             then movie_name hit else movie_details hit)
      <= 1 - same_text (py "Ran (1985)")
             (if negb (truthy (movie_details m))
                 || (PyStr.eqb (movie_details m) (py "Movie details not available.")
                     || PyStr.eqb (movie_details m) (py "Error fetching movie details."))
              then movie_name m else movie_details m))%Q) /\
  (1 # 2 <= same_text (py "Ran (1985)")
              (if negb (truthy (movie_details hit))
                  || (PyStr.eqb (movie_details hit) (py "Movie details not available.")
                      || PyStr.eqb (movie_details hit) (py "Error fetching movie details."))
               then movie_name hit else movie_details hit))%Q.
Proof.
  intros hit.
  destruct (@best_match_nearest_or_absent str (fun t => t) same_text (1 # 2)
              (py "Ran (1985)") shelf) as (H & _).
  apply (H hit). reflexivity.
Defined.

Example best_match_by_description :
  best_match (fun t => t) same_text (1 # 2) (py "A heist film") shelf
  = Some (py "Heat (1995)", py "A heist film", py "f1").
Proof. reflexivity. Qed.

Example best_match_by_key_for_sentinel :
  best_match (fun t => t) same_text (1 # 2) (py "Ran (1985)") shelf
  = Some (py "Ran (1985)", py "Movie details not available.", py "f2").
Proof. reflexivity. Qed.

Example best_match_absent_below_floor :
  best_match (fun t => t) same_text (1 # 2) (py "No such film") shelf = None.
Proof. reflexivity. Qed.

(* ================================================================== *)
(** * Further properties of the code *)

(** ** The cursor file read back *)

Lemma py_String (a : ascii) (s : string) : py (String a s) = N_of_ascii a :: py s.
Proof. reflexivity. Qed.

Lemma latin_digits_numeral (d : Decimal.uint) (acc : Z) :
  latin_digits acc true (py (DecimalString.NilEmpty.string_of_uint d))
  = Some (digits_value d acc).
Proof.
  revert acc. induction d; intros acc;
    cbn [DecimalString.NilEmpty.string_of_uint]; rewrite ?py_String;
    try reflexivity;
    cbn [latin_digits digits_value];
    match goal with
    | |- context [Latin.is_decimal ?c] =>
        change (Latin.is_decimal c) with true; cbv iota
    end;
    rewrite IHd; f_equal; f_equal; cbn; lia.
Qed.

Lemma latin_digits_numeral_first (d : Decimal.uint) :
  d <> Decimal.Nil ->
  latin_digits 0 false (py (DecimalString.NilEmpty.string_of_uint d))
  = Some (digits_value d 0).
Proof.
  destruct d; [congruence| ..]; intros _;
    cbn [DecimalString.NilEmpty.string_of_uint]; rewrite py_String;
    cbn [latin_digits digits_value];
    match goal with
    | |- context [Latin.is_decimal ?c] =>
        change (Latin.is_decimal c) with true; cbv iota
    end;
    rewrite latin_digits_numeral; f_equal; f_equal; cbn; lia.
Qed.

Lemma digits_value_pos (d : Decimal.uint) (acc : positive) :
  digits_value d (Zpos acc) = Zpos (Pos.of_uint_acc d acc).
Proof.
  revert acc. induction d; intros acc; cbn [digits_value Pos.of_uint_acc];
    try reflexivity;
    match goal with
    | |- digits_value _ ?z = Zpos (Pos.of_uint_acc _ ?p) =>
        replace z with (Zpos p) by lia
    end; apply IHd.
Qed.

Lemma digits_value_zero (d : Decimal.uint) :
  digits_value d 0 = Z.of_N (Pos.of_uint d).
Proof.
  induction d; cbn [digits_value Pos.of_uint]; try reflexivity; try assumption;
    match goal with
    | |- digits_value _ ?z = _ => 
        let p := eval cbv in z in change z with p
    end; apply digits_value_pos.
Qed.

Lemma numeral_chars (d : Decimal.uint) :
  Forall (fun c => Latin.is_space c = false)
         (py (DecimalString.NilEmpty.string_of_uint d)).
Proof.
  induction d; cbn [DecimalString.NilEmpty.string_of_uint]; rewrite ?py_String;
    constructor; solve [reflexivity | assumption].
Qed.

Lemma strip_without_space (is_space : char -> bool) (s : str) :
  Forall (fun c => is_space c = false) s -> strip is_space s = s.
Proof.
  intros H. destruct s as [|h t]; [reflexivity|].
  apply strip_fixed.
  - exists h, t. split; [reflexivity|]. now inversion H.
  - destruct (@exists_last _ (h :: t)) as (a & c & E); [discriminate|].
    exists a, c. split; [assumption|].
    rewrite Forall_forall in H. apply H. rewrite E. apply in_or_app. right. now left.
Qed.

Lemma to_uint_not_nil (p : positive) : Pos.to_uint p <> Decimal.Nil.
Proof.
  intros E. pose proof (DecimalPos.Unsigned.of_to p) as H.
  rewrite E in H. discriminate.
Qed.

Lemma numeral_of_pos (p : positive) :
  DecimalString.NilZero.string_of_uint (Pos.to_uint p)
  = DecimalString.NilEmpty.string_of_uint (Pos.to_uint p).
Proof.
  pose proof (to_uint_not_nil p) as H.
  destruct (Pos.to_uint p); [congruence| ..]; reflexivity.
Qed.

Lemma latin_int_of_pos (p : positive) :
  latin_digits 0 false (py (DecimalString.NilEmpty.string_of_uint (Pos.to_uint p)))
  = Some (Zpos p).
Proof.
  rewrite (latin_digits_numeral_first (to_uint_not_nil p)), digits_value_zero.
  now rewrite DecimalPos.Unsigned.of_to.
Qed.

(** [int(str(n)) == n]: what [save_last_update_id] writes, [int] reads. *)
Lemma latin_int_str_of_int (n : Z) : latin_int (str_of_int n) = Some n.
Proof.
  unfold latin_int, str_of_int. destruct n as [|p|p]; [reflexivity| |].
  - cbn [Z.to_int DecimalString.NilZero.string_of_int].
    rewrite numeral_of_pos, (strip_without_space _ (numeral_chars _)).
    rewrite <- latin_int_of_pos.
    pose proof (to_uint_not_nil p) as Hnil.
    destruct (Pos.to_uint p); [congruence| ..]; reflexivity.
  - cbn [Z.to_int DecimalString.NilZero.string_of_int].
    rewrite numeral_of_pos, py_String.
    rewrite strip_without_space
      by (constructor; [reflexivity|apply numeral_chars]).
    change (N_of_ascii "-") with 45%N. cbv iota.
    now rewrite latin_int_of_pos.
Qed.

Lemma str_of_int_chars (n : Z) :
  Forall (fun c => Latin.is_space c = false) (str_of_int n).
Proof.
  unfold str_of_int. destruct n as [|p|p]; cbn [Z.to_int DecimalString.NilZero.string_of_int].
  - repeat constructor.
  - rewrite numeral_of_pos. apply numeral_chars.
  - rewrite numeral_of_pos, py_String. constructor; [reflexivity|apply numeral_chars].
Qed.

(** X1: what [save_last_update_id] writes, [get_last_update_id] reads
    back: after saving [n] the cursor is [n], nothing is logged and the
    world is left as the save left it. *)
Theorem saved_cursor_is_read_back (n : Z) (w : world) :
  get_last_update_id Latin.is_space latin_int (snd (save_last_update_id n w))
  = (Ok (Some n), snd (save_last_update_id n w)).
Proof.
  rewrite get_last_update_id_run, save_last_update_id_run.
  cbn [snd cursor_file].
  now rewrite (strip_without_space _ (str_of_int_chars n)), latin_int_str_of_int.
Qed.

(** ** What a cycle writes *)

Lemma fold_insert_grows (batch : list movie) (tbl : list row) :
  exists added,
    fold_left insert_or_ignore batch tbl = tbl ++ added /\
    (List.length added <= List.length batch)%nat /\
    forall r, In r added -> In (normalized_name r) (map movie_name batch).
Proof.
  revert tbl. induction batch as [|m batch IH]; intros tbl; cbn [fold_left].
  - exists []. rewrite app_nil_r. repeat split; [simpl; lia|intros r []].
  - destruct (IH (insert_or_ignore tbl m)) as (added & -> & Hlen & Hnames).
    destruct (insert_or_ignore_cases tbl m) as [[_ ->]|[_ ->]].
    + exists added. repeat split; [simpl; lia|].
      intros r Hr. right. now apply Hnames.
    + eexists (_ :: added). rewrite <- app_assoc. repeat split; [simpl; lia|].
      intros r [<-|Hr]; [now left|right; now apply Hnames].
Qed.

Lemma fold_insert_present (name : str) (batch : list movie) (tbl : list row) :
  has_name name tbl = true ->
  (forall m, In m batch -> movie_name m = name) ->
  fold_left insert_or_ignore batch tbl = tbl.
Proof.
  intros Hhas. induction batch as [|m batch IH]; intros Hall; [reflexivity|].
  cbn [fold_left]. unfold insert_or_ignore at 2.
  rewrite (Hall m (or_introl eq_refl)), Hhas.
  apply IH. intros m' Hm'. apply Hall. now right.
Qed.

Lemma fold_insert_one_name (name : str) (batch : list movie) (tbl : list row) :
  (forall m, In m batch -> movie_name m = name) ->
  exists added,
    fold_left insert_or_ignore batch tbl = tbl ++ added /\
    (List.length added <= 1)%nat /\
    forall r, In r added -> normalized_name r = name.
Proof.
  destruct batch as [|m batch]; intros Hall.
  - exists []. rewrite app_nil_r. repeat split; [simpl; lia|intros r []].
  - cbn [fold_left].
    assert (Hm : movie_name m = name) by (apply Hall; now left).
    rewrite (@fold_insert_present name batch (insert_or_ignore tbl m)).
    + destruct (insert_or_ignore_cases tbl m) as [[_ ->]|[_ ->]].
      * exists []. rewrite app_nil_r. repeat split; [simpl; lia|intros r []].
      * eexists [_]. repeat split; [simpl; lia|].
        intros r [<-|[]]. exact Hm.
    + rewrite <- Hm. apply insert_or_ignore_has.
    + intros m' Hm'. apply Hall. now right.
Qed.

Lemma cursor_after_last (before : option str) (saved : list Z) (d : Z) :
  saved <> [] -> cursor_after before saved = Some (str_of_int (last saved d)).
Proof.
  unfold cursor_after. induction saved as [|n saved IH]; [congruence|]. intros _.
  destruct saved as [|n' saved]; [reflexivity|].
  change (last (map (fun n0 => Some (str_of_int n0)) (n :: n' :: saved)) before)
    with (last (map (fun n0 => Some (str_of_int n0)) (n' :: saved)) before).
  change (last (n :: n' :: saved) d) with (last (n' :: saved) d).
  apply IH. discriminate.
Qed.

Section JobExtras.
Variable is_alnum : char -> bool.
Variable is_space : char -> bool.
Variable is_decimal : char -> bool.
Variable int : str -> option Z.
Variable E : env.

Local Notation normalize := (normalize_movie_name is_alnum is_space is_decimal).
Local Notation job := (fetch_movies_from_channel is_alnum is_space is_decimal int E).
Local Notation the_url := (omdb_url (Ingestion.OMDB_API_KEY E) (normalize no_details)).
Local Notation run := (@job_run is_alnum is_space is_decimal int E).
Local Notation run_any := (@job_run_any is_alnum is_space is_decimal int E).

(** X2: in a cycle whose request is answered, with well-formed answers
    of the metadata service, the cursor file is written once for each
    update whose identifier is not zero, in order, with that identifier
    plus one; what the file holds afterwards is the last of these
    values, or what it held when there is none.  The storage has no say
    in it. *)
Theorem cursor_follows_updates (w : world) (us : list update) :
  (forall off, bot_get_updates E off = Ok us) ->
  (forall n url, well_formed (omdb_service E n url) = true) ->
  cursor_file (snd (job w)) = cursor_after (cursor_file w) (advanced us) /\
  exists evs,
    trace (snd (job w)) = trace w ++ evs /\
    cursor_writes evs = map str_of_int (advanced us).
Proof.
  intros Hups Hwf.
  destruct (run w Hups Hwf) as (batch & evs & _ & Htr & Hcur & Hcw & _).
  split; [assumption|]. now exists evs.
Qed.

(** X3: in a cycle whose request is answered, the rows of the table stay
    in place and at most one row per message with a document is added,
    whatever the storage and the metadata service do; and the cycle
    returns normally, whatever the storage does, when the answers of the
    metadata service are well formed. *)
Theorem answered_cycle_only_appends (w : world) (us : list update) :
  (forall off, bot_get_updates E off = Ok us) ->
  ((forall n url, well_formed (omdb_service E n url) = true) -> fst (job w) = Ok tt) /\
  exists added,
    movies (snd (job w)) = movies w ++ added /\
    (List.length added <= List.length (documents us))%nat.
Proof.
  intros Hups. split.
  - intros Hwf. now destruct (run w Hups Hwf) as (batch & evs & Hok & _).
  - destruct (run_any w Hups)
      as (evs & _ & [(batch & _ & _ & _ & _ & Hst & Hmov & _)|(e & n & j & _ & _ & Hmov & _)]).
    + rewrite Hmov. destruct (fault_strikes (db_fault E) batch).
      * exists []. rewrite app_nil_r. split; [reflexivity|simpl; lia].
      * destruct (fold_insert_grows batch (movies w)) as (added & -> & Hlen & _).
        exists added. split; [reflexivity|].
        apply Forall2_length in Hst. lia.
    + exists []. rewrite app_nil_r. split; [assumption|simpl; lia].
Qed.

(** X4: when the storage fails on the batch of a cycle whose lookups
    got well-formed answers, the cycle still returns normally; the error
    is the last thing logged, the table is what it was, and the cursor
    has moved past the updates all the same: their documents are not
    staged again by a later cycle. *)
Theorem storage_failure_loses_batch (w : world) (us : list update) :
  (forall off, bot_get_updates E off = Ok us) ->
  (forall n url, well_formed (omdb_service E n url) = true) ->
  documents us <> [] ->
  strikes_at (db_fault E) (List.length (documents us)) = true ->
  fst (job w) = Ok tt /\
  movies (snd (job w)) = movies w /\
  cursor_file (snd (job w)) = cursor_after (cursor_file w) (advanced us) /\
  exists evs, trace (snd (job w)) = trace w ++ evs ++ [Log ERROR DbBatchError].
Proof.
  intros Hups Hwf Hdocs Hstrike.
  destruct (run w Hups Hwf)
    as (batch & evs & Hok & Htr & Hcur & _ & _ & Hst & Hmov & _ & Hlog).
  assert (Hlen : List.length (documents us) = List.length batch)
    by now apply Forall2_length in Hst.
  assert (Hs : fault_strikes (db_fault E) batch = true)
    by now rewrite fault_strikes_at, <- Hlen.
  assert (Hne : batch <> []).
  { intros ->. destruct (documents us); [congruence|discriminate]. }
  rewrite Hs in Hmov. repeat split; auto.
  destruct (Hlog Hne Hs) as (evs' & ->). now exists evs'.
Qed.

(** X5: updates that carry no document stage nothing: the table is not
    touched, [insert_movies] is not called and no request goes to the
    metadata service; the cursor is advanced over them all the same. *)
Theorem updates_without_document_are_skipped (w : world) (us : list update) :
  (forall off, bot_get_updates E off = Ok us) ->
  documents us = [] ->
  movies (snd (job w)) = movies w /\
  exists evs,
    trace (snd (job w)) = trace w ++ evs /\
    requested evs = [] /\ executed evs = [] /\
    cursor_writes evs = map str_of_int (advanced us).
Proof.
  intros Hups Hdocs.
  destruct (run_any w Hups)
    as (evs & Htr & [(batch & _ & _ & Hcw & Hrq & Hst & Hmov & Hex & _)
                    |(e & n & j & _ & _ & _ & _ & Hj & _)]).
  - rewrite Hdocs in *. inversion Hst; subst. split.
    + rewrite Hmov. now destruct (fault_strikes (db_fault E) []).
    + exists evs. repeat split; auto.
  - rewrite Hdocs in Hj. cbn in Hj. lia.
Qed.

(** X6: every request a cycle sends to the metadata service is for the
    same URL, the one built from the key of the placeholder text "No
    details available": the title looked up never comes from the
    message.  There are at most as many requests as documents whose
    caption is absent, empty or that text, and exactly as many when the
    answers of the service are well formed. *)
Theorem lookups_ask_for_the_placeholder (w : world) (us : list update) :
  (forall off, bot_get_updates E off = Ok us) ->
  exists evs k,
    trace (snd (job w)) = trace w ++ evs /\
    requested evs = repeat the_url k /\
    (k <= lookups (documents us))%nat /\
    ((forall n url, well_formed (omdb_service E n url) = true) ->
     k = lookups (documents us)).
Proof.
  intros Hups.
  destruct (run_any w Hups)
    as (evs & Htr & [(batch & _ & _ & _ & Hrq & _)
                    |(e & n & j & _ & Hesc & _ & Hrq & Hj & _)]).
  - exists evs, (lookups (documents us)). repeat split; auto.
  - exists evs, (S j). repeat split; auto.
    intros Hwf. rewrite (well_formed_returns _ (Hwf n _)) in Hesc. discriminate.
Qed.

(** X7: documents without a caption all get the key of the placeholder
    text, so a cycle in which every document lacks a caption adds at
    most one row, under that key, however many documents there are. *)
Theorem captionless_documents_share_one_key (w : world) (us : list update) :
  (forall off, bot_get_updates E off = Ok us) ->
  (forall md, In md (documents us) -> lookup_needed (fst md) = true) ->
  exists added,
    movies (snd (job w)) = movies w ++ added /\
    (List.length added <= 1)%nat /\
    forall r, In r added -> normalized_name r = normalize no_details.
Proof.
  intros Hups Hall.
  destruct (run_any w Hups)
    as (evs & _ & [(batch & _ & _ & _ & _ & Hst & Hmov & _)|(e & n & j & _ & _ & Hmov & _)]).
  - rewrite Hmov. destruct (fault_strikes (db_fault E) batch).
    + exists []. rewrite app_nil_r. repeat split; [simpl; lia|intros r []].
    + apply fold_insert_one_name.
      clear Hmov. induction Hst as [|md e docs batch Hfrom _ IH]; [intros m []|].
      intros m [<-|Hm].
      * destruct Hfrom as (_ & Hname & _). rewrite Hname.
        now rewrite (lookup_needed_placeholder _ (Hall md (or_introl eq_refl))).
      * apply IH; [|assumption]. intros md' Hmd'. apply Hall. now right.
  - exists []. rewrite app_nil_r. repeat split; [assumption|simpl; lia|intros r []].
Qed.

(** X8: a [BadRequest] or any other [TelegramError] of the channel
    client is handled like the named ones: the cycle logs "Error while
    fetching updates" and returns normally, with the cursor file and
    the table as they were. *)
Theorem other_telegram_errors_abort (w : world) (e : exn) :
  (forall off, bot_get_updates E off = Raise e) ->
  e = BadRequest \/ e = OtherTelegramError ->
  exists off pre,
    (pre = [] \/ pre = [Log ERROR CursorUnreadable]) /\
    job w = (Ok tt, after w (pre ++ [Log INFO FetchingUpdates; GetUpdates off;
                                     Log ERROR FetchUpdatesError])).
Proof.
  intros Hups He.
  destruct (get_last_update_id_cases is_space int w) as (off & pre & Hrun & Hpre).
  exists off, pre. split; [assumption|].
  rewrite (@job_unfold is_alnum is_space is_decimal int E w _ _ Hrun), Hups.
  destruct He as [-> | ->]; cbn [handled abort_events]; now rewrite after_after.
Qed.

(** X9: an exception of the channel client that is not a
    [TelegramError] is not caught: the cycle raises it to its caller,
    having written nothing. *)
Theorem foreign_exceptions_escape (w : world) (e : exn) :
  (forall off, bot_get_updates E off = Raise e) ->
  handled e = false ->
  exists off pre,
    (pre = [] \/ pre = [Log ERROR CursorUnreadable]) /\
    job w = (Raise e, after w (pre ++ [Log INFO FetchingUpdates; GetUpdates off])) /\
    cursor_file (snd (job w)) = cursor_file w /\
    movies (snd (job w)) = movies w.
Proof.
  intros Hups He.
  destruct (get_last_update_id_cases is_space int w) as (off & pre & Hrun & Hpre).
  exists off, pre. split; [assumption|].
  rewrite (@job_unfold is_alnum is_space is_decimal int E w _ _ Hrun), Hups, He, after_after.
  repeat split.
Qed.

End JobExtras.

(** X10: a cycle picks up where the previous one stopped: after a cycle
    whose request was answered, whose lookups got well-formed answers
    and which saw an update with a non-zero identifier, the next cycle
    reads the cursor without error and requests the updates from the
    last such identifier plus one. *)
Theorem next_cycle_resumes (E E' : env) (w : world) (us : list update) :
  (forall off, bot_get_updates E off = Ok us) ->
  (forall n url, well_formed (omdb_service E n url) = true) ->
  advanced us <> [] ->
  exists rest,
    trace (snd (job_latin E' (snd (job_latin E w))))
    = trace (snd (job_latin E w))
      ++ [Log INFO FetchingUpdates; GetUpdates (Some (last (advanced us) 0%Z))] ++ rest.
Proof.
  intros Hups Hwf Hne.
  destruct (@job_run Latin.is_alnum Latin.is_space Latin.is_decimal latin_int E w us Hups Hwf)
    as (batch & evs & _ & _ & Hcur & _).
  fold (job_latin E w) in Hcur.
  apply (@job_request Latin.is_alnum Latin.is_space Latin.is_decimal latin_int E').
  rewrite get_last_update_id_run, Hcur, (cursor_after_last _ 0%Z Hne).
  now rewrite (strip_without_space _ (str_of_int_chars _)), latin_int_str_of_int.
Qed.

Lemma cursor_follows_updates_witness :
  let us := [posting (Some (py "Heat, 1995"));
             {| update_id := 0; upd_message := None |};
             {| update_id := 9; upd_message := None |}] in
  let E := answering us (fun _ _ => Failed TimedOut) in
  cursor_file (snd (job_latin E blank)) = cursor_after (cursor_file blank) (advanced us) /\
  exists evs,
    trace (snd (job_latin E blank)) = trace blank ++ evs /\
    cursor_writes evs = map str_of_int (advanced us).
Proof.
  intros us E.
  apply (@cursor_follows_updates
           Latin.is_alnum Latin.is_space Latin.is_decimal latin_int E blank us).
  - intros off. reflexivity.
  - intros n url. reflexivity.
Defined.

Example cursor_after_three_updates :
  cursor_file
    (snd (job_latin (answering [posting (Some (py "Heat, 1995"));
                                {| update_id := 0; upd_message := None |};
                                {| update_id := 9; upd_message := None |}]
                               (fun _ _ => Failed TimedOut)) blank))
  = Some (py "10").
Proof. reflexivity. Qed.

Lemma answered_cycle_only_appends_witness :
  let us := [posting (Some (py "Heat, 1995")); posting (Some (py "Heat 1995"))] in
  let E := {| Ingestion.OMDB_API_KEY := py "k";
              omdb_service := fun _ _ => Failed TimedOut;
              bot_get_updates := fun _ => Ok us;
              db_fault := CommitFails |} in
  ((forall n url, well_formed (omdb_service E n url) = true) ->
   fst (job_latin E blank) = Ok tt) /\
  exists added,
    movies (snd (job_latin E blank)) = movies blank ++ added /\
    (List.length added <= List.length (documents us))%nat.
Proof.
  intros us E.
  apply (@answered_cycle_only_appends
           Latin.is_alnum Latin.is_space Latin.is_decimal latin_int E blank us).
  intros off. reflexivity.
Defined.

Lemma storage_failure_loses_batch_witness :
  let us := [posting (Some (py "Heat, 1995"))] in
  let E := {| Ingestion.OMDB_API_KEY := py "k";
              omdb_service := fun _ _ => Failed TimedOut;
              bot_get_updates := fun _ => Ok us;
              db_fault := StatementFails 0 |} in
  fst (job_latin E blank) = Ok tt /\
  movies (snd (job_latin E blank)) = movies blank /\
  cursor_file (snd (job_latin E blank)) = cursor_after (cursor_file blank) (advanced us) /\
  exists evs, trace (snd (job_latin E blank)) = trace blank ++ evs ++ [Log ERROR DbBatchError].
Proof.
  intros us E.
  apply (@storage_failure_loses_batch
           Latin.is_alnum Latin.is_space Latin.is_decimal latin_int E blank us).
  - intros off. reflexivity.
  - intros n url. reflexivity.
  - discriminate.
  - reflexivity.
Defined.

Example lost_batch :
  let E := {| Ingestion.OMDB_API_KEY := py "k";
              omdb_service := fun _ _ => Failed TimedOut;
              bot_get_updates := fun _ => Ok [posting (Some (py "Heat, 1995"))];
              db_fault := StatementFails 0 |} in
  movies (snd (job_latin E blank)) = [] /\
  cursor_file (snd (job_latin E blank)) = Some (py "8").
Proof. split; reflexivity. Qed.

Lemma updates_without_document_are_skipped_witness :
  let us := [{| update_id := 4;
                upd_message := Some {| msg_document := None;
                                       msg_caption := Some (py "hello") |} |};
             {| update_id := 5; upd_message := None |}] in
  let E := answering us (fun _ _ => Failed TimedOut) in
  movies (snd (job_latin E blank)) = movies blank /\
  exists evs,
    trace (snd (job_latin E blank)) = trace blank ++ evs /\
    requested evs = [] /\ executed evs = [] /\
    cursor_writes evs = map str_of_int (advanced us).
Proof.
  intros us E.
  apply (@updates_without_document_are_skipped
           Latin.is_alnum Latin.is_space Latin.is_decimal latin_int E blank us).
  - intros off. reflexivity.
  - reflexivity.
Defined.

Lemma lookups_ask_for_the_placeholder_witness :
  let us := [posting None; posting (Some (py "Heat, 1995")); posting (Some (py ""))] in
  let E := answering us (fun _ _ => Responded 200 heat_found) in
  exists evs k,
    trace (snd (job_latin E blank)) = trace blank ++ evs /\
    requested evs
    = repeat (omdb_url (Ingestion.OMDB_API_KEY E)
                (normalize_movie_name Latin.is_alnum Latin.is_space Latin.is_decimal
                   no_details))
             k /\
    (k <= lookups (documents us))%nat /\
    ((forall n url, well_formed (omdb_service E n url) = true) ->
     k = lookups (documents us)).
Proof.
  intros us E.
  apply (@lookups_ask_for_the_placeholder
           Latin.is_alnum Latin.is_space Latin.is_decimal latin_int E blank us).
  intros off. reflexivity.
Defined.

Example the_url_requested :
  requested
    (trace (snd (job_latin (answering [posting None]
                                      (fun _ _ => Responded 200 heat_found)) blank)))
  = [py "http://www.omdbapi.com/?t=No details available&apikey=k"].
Proof. reflexivity. Qed.

(** The request that a raising lookup sent is for the same URL. *)
Example the_url_requested_before_raising :
  requested
    (trace (snd (job_latin (answering [posting None; posting None]
                                      (fun _ _ => Undecodable 200 false)) blank)))
  = [py "http://www.omdbapi.com/?t=No details available&apikey=k"].
Proof. reflexivity. Qed.

Lemma captionless_documents_share_one_key_witness :
  let us := [posting None; posting (Some (py "")); posting None] in
  let E := answering us (fun _ _ => Responded 200 heat_found) in
  exists added,
    movies (snd (job_latin E blank)) = movies blank ++ added /\
    (List.length added <= 1)%nat /\
    forall r, In r added ->
      normalized_name r
      = normalize_movie_name Latin.is_alnum Latin.is_space Latin.is_decimal no_details.
Proof.
  intros us E.
  apply (@captionless_documents_share_one_key
           Latin.is_alnum Latin.is_space Latin.is_decimal latin_int E blank us).
  - intros off. reflexivity.
  - intros md Hmd. simpl in Hmd.
    destruct Hmd as [<-|[<-|[<-|[]]]]; reflexivity.
Defined.

Lemma other_telegram_errors_abort_witness :
  exists off pre,
    (pre = [] \/ pre = [Log ERROR CursorUnreadable]) /\
    job_latin (failing BadRequest) blank
    = (Ok tt, after blank (pre ++ [Log INFO FetchingUpdates; GetUpdates off;
                                   Log ERROR FetchUpdatesError])).
Proof.
  apply (@other_telegram_errors_abort
           Latin.is_alnum Latin.is_space Latin.is_decimal latin_int
           (failing BadRequest) blank BadRequest).
  - intros off. reflexivity.
  - now left.
Defined.

Lemma foreign_exceptions_escape_witness :
  exists off pre,
    (pre = [] \/ pre = [Log ERROR CursorUnreadable]) /\
    job_latin (failing OtherException) blank
    = (Raise OtherException,
       after blank (pre ++ [Log INFO FetchingUpdates; GetUpdates off])) /\
    cursor_file (snd (job_latin (failing OtherException) blank)) = cursor_file blank /\
    movies (snd (job_latin (failing OtherException) blank)) = movies blank.
Proof.
  apply (@foreign_exceptions_escape
           Latin.is_alnum Latin.is_space Latin.is_decimal latin_int
           (failing OtherException) blank OtherException).
  - intros off. reflexivity.
  - reflexivity.
Defined.

Lemma next_cycle_resumes_witness :
  let us := [posting (Some (py "Heat, 1995"))] in
  let E := answering us (fun _ _ => Failed TimedOut) in
  exists rest,
    trace (snd (job_latin (failing Conflict) (snd (job_latin E blank))))
    = trace (snd (job_latin E blank))
      ++ [Log INFO FetchingUpdates; GetUpdates (Some (last (advanced us) 0%Z))] ++ rest.
Proof.
  intros us E.
  apply (@next_cycle_resumes E (failing Conflict) blank us).
  - intros off. reflexivity.
  - intros n url. reflexivity.
  - discriminate.
Defined.

(** ** The catalog, written and read *)

Lemma get_all_movies_run (fault : storage_fault) (w : world) :
  get_all_movies fault w =
  match fault with
  | ConnectFails => (Raise SqliteError, w)
  | StatementFails O =>
      (Raise SqliteError, mkWorld (cursor_file w) (movies w) None (trace w))
  | _ => (Ok (tuples (movies w)),
          mkWorld (cursor_file w) (movies w) None (trace w))
  end.
Proof. destruct w, fault as [| |[|k]|]; reflexivity. Qed.

Lemma names_of_tuples (tbl : list row) : map movie_name (tuples tbl) = names tbl.
Proof. unfold tuples, names. rewrite map_map. reflexivity. Qed.

Lemma fold_insert_all_present (batch : list movie) (tbl : list row) :
  (forall m, In m batch -> has_name (movie_name m) tbl = true) ->
  fold_left insert_or_ignore batch tbl = tbl.
Proof.
  induction batch as [|m batch IH]; intros Hall; [reflexivity|].
  cbn [fold_left]. unfold insert_or_ignore at 2.
  rewrite (Hall m (or_introl eq_refl)). apply IH.
  intros m' Hm'. apply Hall. now right.
Qed.

(** X11: what [insert_movies] stored, [get_all_movies] lists: after a
    batch went in without a storage fault the listing starts with the
    tuples that were there, carries every name of the batch, each name
    once, and holds the first tuple of the batch under each new name
    as it was given; the listing itself changes nothing. *)
Theorem inserted_movies_are_listed (batch : list movie) (w : world) :
  NoDup (names (movies w)) ->
  exists listed news,
    get_all_movies NoFault (snd (insert_movies NoFault batch w))
    = (Ok listed, snd (insert_movies NoFault batch w)) /\
    listed = tuples (movies w) ++ news /\
    NoDup (map movie_name listed) /\
    (forall m, In m batch -> In (movie_name m) (map movie_name listed)) /\
    (forall pre m post,
       batch = pre ++ m :: post ->
       has_name (movie_name m) (movies w) = false ->
       ~ In (movie_name m) (map movie_name pre) ->
       In m listed).
Proof.
  intros Hnd. rewrite insert_movies_commits, get_all_movies_run.
  cbn [snd movies cursor_file trace].
  destruct (fold_insert_spec batch (movies w)) as (added & Hfold & _ & Hhas & Hfirst).
  exists (tuples (fold_left insert_or_ignore batch (movies w))), (tuples added).
  repeat split.
  - rewrite Hfold. unfold tuples. now rewrite map_app.
  - rewrite names_of_tuples. now apply fold_insert_nodup.
  - intros m Hm. rewrite names_of_tuples, Hfold. apply has_name_in. now apply Hhas.
  - intros pre m post Hb Hnew Hpre.
    destruct (Hfirst pre m post Hb Hnew Hpre) as [i Hi].
    rewrite Hfold. unfold tuples. rewrite map_app. apply in_or_app. right.
    apply in_map_iff. eexists. split; [|exact Hi].
    destruct m as [[name det] file]. reflexivity.
Qed.

Lemma inserted_movies_are_listed_witness :
  let old := mkRow 1 (py "Heat (1995)") (py "first") (py "f1") in
  let batch := [(py "Heat (1995)", py "second", py "f2");
                (py "Ran (1985)", py "third", py "f3")] in
  let w := mkWorld None [old] None [] in
  exists listed news,
    get_all_movies NoFault (snd (insert_movies NoFault batch w))
    = (Ok listed, snd (insert_movies NoFault batch w)) /\
    listed = tuples (movies w) ++ news /\
    NoDup (map movie_name listed) /\
    (forall m, In m batch -> In (movie_name m) (map movie_name listed)) /\
    (forall pre m post,
       batch = pre ++ m :: post ->
       has_name (movie_name m) (movies w) = false ->
       ~ In (movie_name m) (map movie_name pre) ->
       In m listed).
Proof.
  intros old batch w. apply (inserted_movies_are_listed batch w).
  simpl. constructor; [intros []|constructor].
Defined.

(** X12: inserting a batch a second time changes nothing: every name of
    the batch is in the table after the first call, so the second call
    ignores every tuple. *)
Theorem insert_movies_twice (batch : list movie) (w : world) :
  movies (snd (insert_movies NoFault batch (snd (insert_movies NoFault batch w))))
  = movies (snd (insert_movies NoFault batch w)).
Proof.
  rewrite !insert_movies_commits. cbn [snd movies].
  apply fold_insert_all_present.
  destruct (fold_insert_spec batch (movies w)) as (added & -> & _ & Hhas & _).
  exact Hhas.
Qed.

(** X13: two batches inserted one after the other leave the table that
    the two batches joined into one would leave. *)
Theorem insert_movies_in_sequence (first second : list movie) (w : world) :
  movies (snd (insert_movies NoFault second (snd (insert_movies NoFault first w))))
  = movies (snd (insert_movies NoFault (first ++ second) w)).
Proof.
  rewrite !insert_movies_commits. cbn [snd movies]. now rewrite fold_left_app.
Qed.

(** X14: [get_all_movies] has no handler of its own: a storage error on
    connecting, or on running the SELECT, is raised to the caller;
    otherwise the call returns the committed rows as tuples, in table
    order.  Either way it leaves table, cursor file and trace alone. *)
Theorem listing_is_unprotected (fault : storage_fault) (w : world) :
  exists w',
    movies w' = movies w /\ cursor_file w' = cursor_file w /\ trace w' = trace w /\
    match fault with
    | ConnectFails | StatementFails O => get_all_movies fault w = (Raise SqliteError, w')
    | NoFault | StatementFails (S _) | CommitFails =>
        get_all_movies fault w = (Ok (tuples (movies w)), w')
    end.
Proof.
  rewrite get_all_movies_run.
  destruct fault as [| |[|k]|];
    try (exists w; now repeat split);
    exists (mkWorld (cursor_file w) (movies w) None (trace w)); now repeat split.
Qed.

Example listing_raises_on_select :
  get_all_movies (StatementFails 0) blank = (Raise SqliteError, blank).
Proof. reflexivity. Qed.

(** ** The answer of the metadata service, read back from the result *)

Lemma summary_is_no_sentinel (data : json_object) :
  summary data <> not_available /\ summary data <> error_fetching.
Proof.
  split; intros H; apply (f_equal (fun l => hd 0%N l)) in H;
    vm_compute in H; discriminate.
Qed.

(** X15: the outcome of a lookup tells what happened.  It is the error
    text exactly when the request raised, the status was an error status
    (400 to 599), or the body was not JSON and the decoding error is a
    [RequestException] (requests 2.27 and later).  It is the
    not-available text exactly when the service answered a JSON object
    without an error status and without [Response] being the string
    "True"; a summary is never mistaken for either.  And an exception
    leaves the lookup exactly when, the status being no error status,
    the body is JSON but no object ([AttributeError]) or is not JSON and
    the decoding error is a plain [ValueError]. *)
Theorem lookup_result_tells_the_cause
  (key : str) (service : nat -> str -> exchange) (name : str) (w : world) :
  (fst (fetch_movie_details_from_omdb key service name w) = Ok error_fetching <->
   match service (http_gets (trace w)) (omdb_url key name) with
   | Failed _ => True
   | Responded status_code _ | NotAnObject status_code => (400 <= status_code < 600)%Z
   | Undecodable status_code as_request_exception =>
       (400 <= status_code < 600)%Z \/ as_request_exception = true
   end) /\
  (fst (fetch_movie_details_from_omdb key service name w) = Ok not_available <->
   match service (http_gets (trace w)) (omdb_url key name) with
   | Responded status_code data =>
       ~ (400 <= status_code < 600)%Z /\
       dict_get data (py "Response") <> Some (JStr (py "True"))
   | _ => False
   end) /\
  (forall e,
     fst (fetch_movie_details_from_omdb key service name w) = Raise e <->
     match service (http_gets (trace w)) (omdb_url key name) with
     | NotAnObject status_code => ~ (400 <= status_code < 600)%Z /\ e = AttributeError
     | Undecodable status_code false => ~ (400 <= status_code < 600)%Z /\ e = ValueError
     | _ => False
     end).
Proof.
  rewrite fetch_run.
  pose proof is_error_status_iff as Hst.
  destruct (service (http_gets (trace w)) (omdb_url key name)) as [why|st data|st b|st];
    cbn [escapes answer fst]; try specialize (Hst st).
  - repeat split; intros; try tauto; discriminate.
  - pose proof (response_is_true_iff data) as Htrue.
    destruct (summary_is_no_sentinel data) as [Hna Herr].
    destruct (is_error_status st), (response_is_true data);
      repeat split; intros; try discriminate; try congruence;
      intuition (try discriminate; try congruence).
  - destruct (is_error_status st), b; cbn [orb fst];
      repeat split; intros; try discriminate; try congruence;
      intuition (try discriminate; try congruence).
  - destruct (is_error_status st); cbn [fst];
      repeat split; intros; try discriminate; try congruence;
      intuition (try discriminate; try congruence).
Qed.

Example undecodable_body_by_version :
  fst (fetch_movie_details_from_omdb (py "k") (fun _ _ => Undecodable 200 true)
         (py "Heat") blank) = Ok error_fetching /\
  fst (fetch_movie_details_from_omdb (py "k") (fun _ _ => Undecodable 200 false)
         (py "Heat") blank) = Raise ValueError /\
  fst (fetch_movie_details_from_omdb (py "k") (fun _ _ => NotAnObject 503)
         (py "Heat") blank) = Ok error_fetching.
Proof. repeat split; reflexivity. Qed.

(** ** The size and the stability of a key *)

Section KeySize.
Variable is_alnum : char -> bool.
Variable is_space : char -> bool.
Variable is_decimal : char -> bool.

Lemma strip_length (s : str) : (List.length (strip is_space s) <= List.length s)%nat.
Proof using is_space.
  destruct (strip_infix is_space s) as (p & q & E).
  rewrite E at 2. rewrite !length_app. lia.
Qed.

Lemma cleaned_length (caption : str) :
  (List.length (cleaned is_alnum is_space caption) <= List.length caption)%nat.
Proof using is_alnum is_space.
  unfold cleaned. etransitivity; [apply strip_length|].
  etransitivity; [apply collapse_length|].
  unfold sub_special. now rewrite length_map.
Qed.

Lemma sub_years_length (s : str) :
  (List.length (sub_years is_decimal s) <= List.length s)%nat.
Proof using is_decimal.
  remember (List.length s) as n eqn:Hn.
  revert s Hn. induction n as [n IH] using lt_wf_ind. intros s Hn.
  destruct s as [|a tl]; [simpl; lia|].
  rewrite sub_years_eq. destruct (year_at is_decimal (a :: tl)).
  - assert (H : (List.length (sub_years is_decimal (skipn 3 tl))
                 <= List.length (skipn 3 tl))%nat).
    { apply (IH (List.length (skipn 3 tl))); [|reflexivity].
      subst. cbn [List.length]. rewrite length_skipn. lia. }
    rewrite length_skipn in H. subst. cbn [List.length]. lia.
  - assert (H : (List.length (sub_years is_decimal tl) <= List.length tl)%nat)
      by (apply (IH (List.length tl)); [subst; simpl; lia|reflexivity]).
    subst. cbn [List.length]. lia.
Qed.

Lemma sub_years_shortens (s y : str) :
  search_year is_decimal s = Some y ->
  (List.length (sub_years is_decimal s) + 4 <= List.length s)%nat.
Proof using is_decimal.
  induction s as [|a tl IH]; [discriminate|].
  change (search_year is_decimal (a :: tl))
    with (match year_at is_decimal (a :: tl) with
          | Some y => Some y | None => search_year is_decimal tl end).
  rewrite sub_years_eq. destruct (year_at is_decimal (a :: tl)) eqn:E.
  - intros _. destruct tl as [|b [|c [|d rest]]]; try discriminate.
    cbn [skipn List.length]. pose proof (sub_years_length rest). lia.
  - intros H. specialize (IH H). cbn [List.length]. lia.
Qed.

(** X16: a key is never more than three characters longer than the
    caption it was made from; without a run of four digits in the
    cleaned caption it is not longer at all. *)
Theorem key_length_bound (caption : str) :
  (List.length (normalize_movie_name is_alnum is_space is_decimal caption)
   <= List.length caption + 3)%nat /\
  (search_year is_decimal (cleaned is_alnum is_space caption) = None ->
   (List.length (normalize_movie_name is_alnum is_space is_decimal caption)
    <= List.length caption)%nat).
Proof.
  rewrite normalize_unfold. pose proof (cleaned_length caption) as Hc.
  destruct (search_year is_decimal (cleaned is_alnum is_space caption)) as [y|] eqn:E.
  - split; [|discriminate].
    destruct (search_year_leftmost _ _ E) as (_ & _ & _ & Hl & _).
    pose proof (sub_years_shortens _ E) as Hs.
    pose proof (strip_length (sub_years is_decimal (cleaned is_alnum is_space caption))) as Ht.
    rewrite !length_app, Hl.
    change (List.length (py " (")) with 2%nat. change (List.length (py ")")) with 1%nat.
    lia.
  - split; [lia|]. intros _. exact Hc.
Qed.
End KeySize.

Example key_three_longer :
  List.length (normalize_latin (py "1999")) = (List.length (py "1999") + 3)%nat.
Proof. reflexivity. Qed.

Section KeyStability.
Variable is_alnum : char -> bool.
Variable is_space : char -> bool.
Variable is_decimal : char -> bool.
Hypothesis space_is_space : is_space space = true.
Hypothesis word_not_space : forall c, is_word is_alnum c = true -> is_space c = false.
Hypothesis decimal_is_alnum : forall c, is_decimal c = true -> is_alnum c = true.
Hypothesis parens_are_special :
  is_word is_alnum 40%N = false /\ is_space 40%N = false /\
  is_word is_alnum 41%N = false /\ is_space 41%N = false.

Local Notation normalize := (normalize_movie_name is_alnum is_space is_decimal).

(** X17: with tables in which the space is whitespace, word characters
    are not, decimal digits are alphanumeric and the parentheses are
    neither, the canonicalizer settles at its second application:
    normalizing a key of a key gives that key again, for every
    caption. *)
Theorem key_settles_at_second_pass (caption : str) :
  normalize (normalize (normalize caption)) = normalize (normalize caption).
Proof.
  now apply normalize_settles.
Qed.

(** X18: with the same tables, a key in which every run of whitespace
    is a single space is a fixed point of the canonicalizer; this is the
    case of every caption whose cleaned text has no run of four
    digits. *)
Theorem collapsed_key_is_fixed (caption : str) :
  sub_spaces is_space (normalize caption) = normalize caption \/
  search_year is_decimal (cleaned is_alnum is_space caption) = None ->
  normalize (normalize caption) = normalize caption.
Proof.
  intros [H|H].
  - now apply normalize_fixed_when_collapsed.
  - now apply normalize_fixed_without_year.
Qed.
End KeyStability.

Lemma latin_parens_are_special :
  is_word Latin.is_alnum 40%N = false /\ Latin.is_space 40%N = false /\
  is_word Latin.is_alnum 41%N = false /\ Latin.is_space 41%N = false.
Proof. repeat split. Qed.

Lemma key_settles_at_second_pass_witness :
  normalize_latin (normalize_latin (normalize_latin (py "Movie 1999 720p")))
  = normalize_latin (normalize_latin (py "Movie 1999 720p")).
Proof.
  apply (@key_settles_at_second_pass Latin.is_alnum Latin.is_space Latin.is_decimal).
  - reflexivity.
  - exact latin_word_not_space.
  - exact latin_decimal_is_alnum.
  - exact latin_parens_are_special.
Defined.

Lemma collapsed_key_is_fixed_witness :
  normalize_latin (normalize_latin (py "The Matrix, 1999!!"))
  = normalize_latin (py "The Matrix, 1999!!").
Proof.
  apply (@collapsed_key_is_fixed Latin.is_alnum Latin.is_space Latin.is_decimal).
  - reflexivity.
  - exact latin_word_not_space.
  - exact latin_decimal_is_alnum.
  - exact latin_parens_are_special.
  - left. reflexivity.
Defined.

(** ** Start-up configuration *)

Section Startup.
Variable int : str -> option Z.
Variable getenv : str -> option str.

(** X19: when the module loads, the token, the OMDb key and the channel
    identifier are the values of the environment and none of them is
    unset or empty; the database file and the job interval are those of
    the environment, or "movies.db" and 1800 when it does not set
    them. *)
Theorem loaded_settings (c : Config.settings) :
  Config.load int getenv = inl c ->
  Config.TELEGRAM_BOT_TOKEN c = getenv (py "TELEGRAM_BOT_TOKEN") /\
  Config.OMDB_API_KEY c = getenv (py "OMDB_API_KEY") /\
  Config.CHANNEL_CHAT_ID c = getenv (py "CHANNEL_CHAT_ID") /\
  Config.falsy (Config.TELEGRAM_BOT_TOKEN c) = false /\
  Config.falsy (Config.OMDB_API_KEY c) = false /\
  Config.falsy (Config.CHANNEL_CHAT_ID c) = false /\
  Config.DB_FILE c
  = match getenv (py "DATABASE_FILE") with Some v => v | None => py "movies.db" end /\
  match getenv (py "JOB_INTERVAL") with
  | Some v => int v = Some (Config.JOB_INTERVAL c)
  | None => Config.JOB_INTERVAL c = 1800%Z
  end.
Proof.
  unfold Config.load, Config.getenv_default.
  destruct (getenv (py "JOB_INTERVAL")) as [v|] eqn:Hji.
  - destruct (int v) as [n|] eqn:Hint; [|discriminate].
    destruct (Config.falsy (getenv (py "TELEGRAM_BOT_TOKEN"))) eqn:H1; [discriminate|].
    destruct (Config.falsy (getenv (py "OMDB_API_KEY"))) eqn:H2; [discriminate|].
    destruct (Config.falsy (getenv (py "CHANNEL_CHAT_ID"))) eqn:H3; [discriminate|].
    intros [= <-]. cbn. repeat split; auto.
  - destruct (Config.falsy (getenv (py "TELEGRAM_BOT_TOKEN"))) eqn:H1; [discriminate|].
    destruct (Config.falsy (getenv (py "OMDB_API_KEY"))) eqn:H2; [discriminate|].
    destruct (Config.falsy (getenv (py "CHANNEL_CHAT_ID"))) eqn:H3; [discriminate|].
    intros [= <-]. cbn. repeat split; auto.
Qed.

(** X20: the configuration statements of lines 21 to 35 raise exactly
    when [JOB_INTERVAL] is set to something [int] rejects, or the token,
    the OMDb key or the channel identifier is unset or empty; the job
    interval is converted first, so its error hides a missing variable.
    The rest of the module-level code (the imports, [load_dotenv()], the
    loading of the embedding model) lies outside these statements, and
    what it may raise is not covered. *)
Theorem load_is_refused_exactly_when :
  ((exists r, Config.load int getenv = inr r) <->
   (exists v, getenv (py "JOB_INTERVAL") = Some v /\ int v = None) \/
   Config.falsy (getenv (py "TELEGRAM_BOT_TOKEN")) = true \/
   Config.falsy (getenv (py "OMDB_API_KEY")) = true \/
   Config.falsy (getenv (py "CHANNEL_CHAT_ID")) = true) /\
  (forall v, getenv (py "JOB_INTERVAL") = Some v -> int v = None ->
   Config.load int getenv = inr Config.JobIntervalNotInt).
Proof.
  unfold Config.load. split.
  - destruct (getenv (py "JOB_INTERVAL")) as [v|] eqn:Hji.
    + destruct (int v) as [n|] eqn:Hint.
      * destruct (Config.falsy (getenv (py "TELEGRAM_BOT_TOKEN"))) eqn:H1;
          [split; eauto|].
        destruct (Config.falsy (getenv (py "OMDB_API_KEY"))) eqn:H2; [split; eauto|].
        destruct (Config.falsy (getenv (py "CHANNEL_CHAT_ID"))) eqn:H3; [split; eauto|].
        split; [intros [r Hr]; discriminate|].
        intros [(v' & [= <-] & Hv')|[H|[H|H]]]; congruence.
      * split; eauto.
    + destruct (Config.falsy (getenv (py "TELEGRAM_BOT_TOKEN"))) eqn:H1; [split; eauto|].
      destruct (Config.falsy (getenv (py "OMDB_API_KEY"))) eqn:H2; [split; eauto|].
      destruct (Config.falsy (getenv (py "CHANNEL_CHAT_ID"))) eqn:H3; [split; eauto|].
      split; [intros [r Hr]; discriminate|].
      intros [(v' & Hv & _)|[H|[H|H]]]; congruence.
  - intros v Hv Hint. now rewrite Hv, Hint.
Qed.
End Startup.

Lemma loaded_settings_witness :
  let getenv :=
    Config.lookup_env [(py "TELEGRAM_BOT_TOKEN", py "t"); (py "OMDB_API_KEY", py "k");
                       (py "CHANNEL_CHAT_ID", py "-100"); (py "JOB_INTERVAL", py "60")] in
  let c := {| Config.TELEGRAM_BOT_TOKEN := Some (py "t");
              Config.OMDB_API_KEY := Some (py "k");
              Config.DB_FILE := py "movies.db";
              Config.JOB_INTERVAL := 60;
              Config.CHANNEL_CHAT_ID := Some (py "-100");
              Config.CHANNEL_LINK := None;
              Config.LAST_UPDATE_ID_FILE := py "last_update_id.txt" |} in
  Config.TELEGRAM_BOT_TOKEN c = getenv (py "TELEGRAM_BOT_TOKEN") /\
  Config.OMDB_API_KEY c = getenv (py "OMDB_API_KEY") /\
  Config.CHANNEL_CHAT_ID c = getenv (py "CHANNEL_CHAT_ID") /\
  Config.falsy (Config.TELEGRAM_BOT_TOKEN c) = false /\
  Config.falsy (Config.OMDB_API_KEY c) = false /\
  Config.falsy (Config.CHANNEL_CHAT_ID c) = false /\
  Config.DB_FILE c
  = match getenv (py "DATABASE_FILE") with Some v => v | None => py "movies.db" end /\
  match getenv (py "JOB_INTERVAL") with
  | Some v => latin_int v = Some (Config.JOB_INTERVAL c)
  | None => Config.JOB_INTERVAL c = 1800%Z
  end.
Proof.
  intros getenv c. apply (@loaded_settings latin_int getenv c). reflexivity.
Defined.

Example load_refused_for_empty_token :
  Config.load latin_int
    (Config.lookup_env [(py "TELEGRAM_BOT_TOKEN", py ""); (py "OMDB_API_KEY", py "k");
                        (py "CHANNEL_CHAT_ID", py "-100")])
  = inr Config.TokenNotSet.
Proof. reflexivity. Qed.

Example load_refused_for_interval_first :
  Config.load latin_int (Config.lookup_env [(py "JOB_INTERVAL", py "soon")])
  = inr Config.JobIntervalNotInt.
Proof. reflexivity. Qed.

(** ** What decorating a caption changes: nothing *)

Section StripAlgebra.
Variable is_space : char -> bool.

Lemma lstrip_snoc (a : str) (x : char) :
  lstrip is_space (a ++ [x]) =
  match lstrip is_space a with
  | [] => if is_space x then [] else [x]
  | r => r ++ [x]
  end.
Proof.
  induction a as [|c a IH]; [reflexivity|].
  cbn [app lstrip]. destruct (is_space c); [exact IH|reflexivity].
Qed.

Lemma rstrip_cons (x : char) (t : str) :
  rstrip is_space (x :: t) =
  match rstrip is_space t with
  | [] => if is_space x then [] else [x]
  | r => x :: r
  end.
Proof.
  unfold rstrip. cbn [rev]. rewrite lstrip_snoc.
  destruct (lstrip is_space (rev t)) as [|h r].
  - cbn [rev]. now destruct (is_space x).
  - rewrite rev_app_distr. cbn [rev app].
    destruct (rev r ++ [h]) eqn:E; [|reflexivity].
    symmetry in E. now apply app_cons_not_nil in E.
Qed.

Lemma lstrip_rstrip (u : str) :
  lstrip is_space (rstrip is_space u) = rstrip is_space (lstrip is_space u).
Proof.
  induction u as [|x t IH]; [reflexivity|].
  rewrite rstrip_cons. cbn [lstrip]. destruct (is_space x) eqn:Hx.
  - rewrite <- IH. destruct (rstrip is_space t) as [|h r]; [reflexivity|].
    cbn [lstrip]. now rewrite Hx.
  - rewrite rstrip_cons.
    destruct (rstrip is_space t); cbn [lstrip]; now rewrite Hx.
Qed.
End StripAlgebra.

Section Decoration.
Variable is_alnum : char -> bool.
Variable is_space : char -> bool.
Variable is_decimal : char -> bool.
Hypothesis space_is_space : is_space space = true.

Local Notation collapse := (sub_spaces is_space).
Local Notation trim := (strip is_space).

Lemma trim_collapse_cons (c : char) (s : str) :
  is_space c = true -> trim (collapse (c :: s)) = trim (collapse s).
Proof using space_is_space.
  intros Hc. destruct s as [|c' s'].
  - simpl. rewrite Hc. unfold strip. simpl. now rewrite space_is_space.
  - change (collapse (c :: c' :: s'))
      with (if is_space c
            then if is_space c' then collapse (c' :: s') else space :: collapse (c' :: s')
            else c :: collapse (c' :: s')).
    rewrite Hc. destruct (is_space c'); [reflexivity|].
    unfold strip. cbn [lstrip]. now rewrite space_is_space.
Qed.

Lemma rstrip_collapse_snoc (s : str) (c : char) :
  is_space c = true ->
  rstrip is_space (collapse (s ++ [c])) = rstrip is_space (collapse s).
Proof using space_is_space.
  intros Hc. induction s as [|x s IH].
  - simpl. rewrite Hc. unfold rstrip. simpl. now rewrite space_is_space.
  - destruct (is_space x) eqn:Hx.
    + destruct s as [|y s'].
      * simpl. rewrite Hx, Hc. reflexivity.
      * rewrite <- !app_comm_cons in *.
        change (collapse (x :: y :: s' ++ [c]))
          with (if is_space x
                then if is_space y then collapse (y :: s' ++ [c])
                     else space :: collapse (y :: s' ++ [c])
                else x :: collapse (y :: s' ++ [c])).
        change (collapse (x :: y :: s'))
          with (if is_space x
                then if is_space y then collapse (y :: s')
                     else space :: collapse (y :: s')
                else x :: collapse (y :: s')).
        rewrite Hx. destruct (is_space y); [exact IH|].
        now rewrite !rstrip_cons, IH.
    + rewrite <- app_comm_cons. simpl collapse at 1. simpl (collapse (x :: s)).
      rewrite Hx. now rewrite !rstrip_cons, IH.
Qed.

Lemma trim_collapse_snoc (s : str) (c : char) :
  is_space c = true -> trim (collapse (s ++ [c])) = trim (collapse s).
Proof using space_is_space.
  intros Hc. unfold strip.
  now rewrite <- !lstrip_rstrip, (rstrip_collapse_snoc _ Hc).
Qed.

Lemma trim_collapse_padded (p s q : str) :
  forallb is_space p = true -> forallb is_space q = true ->
  trim (collapse (p ++ s ++ q)) = trim (collapse s).
Proof using space_is_space.
  intros Hp Hq. induction p as [|c p IH].
  - cbn [app]. clear Hp. revert s. induction q as [|c q IHq]; intros s.
    + now rewrite app_nil_r.
    + simpl in Hq. apply andb_prop in Hq as [Hc Hq].
      replace (s ++ c :: q) with ((s ++ [c]) ++ q) by (now rewrite <- app_assoc).
      rewrite (IHq Hq). now apply trim_collapse_snoc.
  - simpl in Hp. apply andb_prop in Hp as [Hc Hp].
    rewrite <- app_comm_cons, (trim_collapse_cons _ Hc). now apply IH.
Qed.

Lemma sub_special_of_specials (p : str) :
  (forall c, In c p -> is_word is_alnum c = false) ->
  forallb is_space (sub_special is_alnum is_space p) = true.
Proof using space_is_space.
  intros Hall. apply forallb_forall. intros c Hc. unfold sub_special in Hc.
  apply in_map_iff in Hc as (x & Hx & Hin).
  rewrite (Hall x Hin) in Hx. simpl in Hx.
  destruct (is_space x) eqn:Hsx; subst; assumption.
Qed.

(** X21: characters that are not word characters (punctuation,
    whitespace) put before or after a caption do not change its key. *)
Theorem decoration_is_ignored (p caption q : str) :
  (forall c, In c p -> is_word is_alnum c = false) ->
  (forall c, In c q -> is_word is_alnum c = false) ->
  normalize_movie_name is_alnum is_space is_decimal (p ++ caption ++ q)
  = normalize_movie_name is_alnum is_space is_decimal caption.
Proof.
  intros Hp Hq.
  assert (Hc : cleaned is_alnum is_space (p ++ caption ++ q)
               = cleaned is_alnum is_space caption).
  { unfold cleaned, sub_special. rewrite !map_app.
    apply trim_collapse_padded; now apply sub_special_of_specials. }
  now rewrite !normalize_unfold, Hc.
Qed.
End Decoration.

Lemma decoration_is_ignored_witness :
  normalize_latin (py "[[ " ++ py "Heat 1995" ++ py " ]] !")
  = normalize_latin (py "Heat 1995").
Proof.
  apply (@decoration_is_ignored Latin.is_alnum Latin.is_space Latin.is_decimal).
  - reflexivity.
  - intros c Hc. simpl in Hc. destruct Hc as [<-|[<-|[<-|[]]]]; reflexivity.
  - intros c Hc. simpl in Hc.
    destruct Hc as [<-|[<-|[<-|[<-|[<-|[]]]]]]; reflexivity.
Defined.

(** ** Where the characters of a key come from *)

Section KeyOrigin.
Variable is_alnum : char -> bool.
Variable is_space : char -> bool.
Variable is_decimal : char -> bool.

Lemma cleaned_origin (caption : str) (c : char) :
  In c (cleaned is_alnum is_space caption) -> In c caption \/ c = space.
Proof using is_alnum is_space.
  unfold cleaned. intros H. apply strip_incl in H.
  destruct (@sub_spaces_chars is_space _ c H) as [-> | [Hin _]]; [now right|].
  unfold sub_special in Hin. apply in_map_iff in Hin as (x & Hx & Hin).
  destruct (is_word is_alnum x || is_space x); subst; auto.
Qed.

(** X22: the canonicalizer makes up no character: every character of a
    key is a character of the caption, a space, or one of the two
    parentheses it puts around the year; no letter changes case and no
    digit is rewritten. *)
Theorem key_characters_come_from_caption (caption : str) (c : char) :
  In c (normalize_movie_name is_alnum is_space is_decimal caption) ->
  In c caption \/ c = space \/ c = 40%N \/ c = 41%N.
Proof.
  rewrite normalize_unfold.
  destruct (search_year is_decimal (cleaned is_alnum is_space caption)) as [y|] eqn:E.
  - destruct (search_year_leftmost _ _ E) as (pre & post & Hs & _).
    intros H. apply in_app_or in H as [H|H].
    + apply strip_incl, sub_years_incl in H.
      destruct (cleaned_origin _ _ H); auto.
    + apply in_app_or in H as [H|H].
      * simpl in H. destruct H as [<-|[<-|[]]]; auto.
      * apply in_app_or in H as [H|H].
        -- assert (Hc : In c (cleaned is_alnum is_space caption)).
           { rewrite Hs. apply in_or_app. right. apply in_or_app. now left. }
           destruct (cleaned_origin _ _ Hc); auto.
        -- simpl in H. destruct H as [<-|[]]. auto.
  - intros H. destruct (cleaned_origin _ _ H); auto.
Qed.
End KeyOrigin.

Lemma key_characters_come_from_caption_witness :
  In 72%N (py "Heat, 1995") \/ 72%N = space \/ 72%N = 40%N \/ 72%N = 41%N.
Proof.
  apply (@key_characters_come_from_caption
           Latin.is_alnum Latin.is_space Latin.is_decimal (py "Heat, 1995") 72%N).
  simpl. now left.
Defined.

(** ** A batch goes in whole or not at all *)

(** X23: whatever the storage does, [insert_movies] returns normally
    and the table afterwards is either what it was or what the whole
    batch makes of it: a proper part of a batch is never committed. *)
Theorem insert_movies_all_or_nothing (fault : storage_fault) (batch : list movie) (w : world) :
  exists w',
    insert_movies fault batch w = (Ok tt, w') /\
    cursor_file w' = cursor_file w /\
    (movies w' = movies w \/
     movies w' = fold_left insert_or_ignore batch (movies w)).
Proof.
  destruct (insert_movies_effects fault batch w) as (w' & evs & E & Hc & _ & _ & _ & H).
  exists w'. repeat split; auto.
  destruct (fault_strikes fault batch); destruct H as [H _]; auto.
Qed.

Lemma key_length_bound_witness :
  (List.length (normalize_latin (py "The Matrix!!")) <= List.length (py "The Matrix!!"))%nat.
Proof.
  destruct (@key_length_bound Latin.is_alnum Latin.is_space Latin.is_decimal
              (py "The Matrix!!")) as [_ H].
  apply H. reflexivity.
Defined.

Lemma load_is_refused_exactly_when_witness :
  Config.load latin_int (Config.lookup_env [(py "JOB_INTERVAL", py "soon")])
  = inr Config.JobIntervalNotInt.
Proof.
  destruct (@load_is_refused_exactly_when latin_int
              (Config.lookup_env [(py "JOB_INTERVAL", py "soon")])) as [_ H].
  apply (H (py "soon")); reflexivity.
Defined.
